(** * The audio visualizer hook ([src/hooks/useAudioVisualizer.ts])

    A shallow embedding of the hook that taps a playing audio element
    with a private analyser node, hands out byte sample arrays and runs
    a per-display-frame loop.

    The hook talks to three collaborators that are not part of the file:
    - the browser's Web Audio graph (analyser nodes, [connect]),
    - the browser's frame scheduler ([requestAnimationFrame]),
    - the connection manager ([@/utils/audioContextManager]).

    The first two are modelled as an explicit [World] that every
    operation threads through; the manager is an interface the hook is
    parametrised by. *)

From Stdlib Require Import ZArith QArith.
From Stdlib.Strings Require Import Byte.
From stdpp Require Import gmap strings list.

(** ** References and plain data *)

(** JS object references are keys into the stores of the [World]. *)
Abbreviation NodeId := nat (only parsing).
Abbreviation CtxId := nat (only parsing).
Abbreviation ConnId := nat (only parsing).
Abbreviation AudioElement := nat (only parsing).
Abbreviation CallbackId := nat (only parsing).
Abbreviation FrameHandle := nat (only parsing).

(** What a [catch (error)] clause can receive. *)
Inductive Error : Type :=
| IndexSizeError
| InvalidAccessError
| Thrown (msg : string).

(** [AnalyserNode]: the four attributes the hook writes.  JS numbers
    that are only stored and compared are rationals, the FFT size is an
    integer. *)
Record AnalyserNode : Type := mkAnalyserNode {
  fftSize : Z;
  smoothingTimeConstant : Q;
  minDecibels : Q;
  maxDecibels : Q;
}.

(** The read-only attribute [frequencyBinCount]: half the FFT size. *)
Definition frequencyBinCount (a : AnalyserNode) : Z := (fftSize a / 2)%Z.

(** The node [createAnalyser()] returns before any attribute is set. *)
Definition freshAnalyser : AnalyserNode :=
  {| fftSize := 2048; smoothingTimeConstant := 0.8;
     minDecibels := -100; maxDecibels := -30 |}.

#[export] Instance AnalyserNode_inhabited : Inhabited AnalyserNode :=
  populate freshAnalyser.

(** [AudioContext]: sample rate in Hz and the destination node. *)
Record AudioContext : Type := mkAudioContext {
  sampleRate : Z;
  destination : NodeId;
}.

(** The connection object [getOrCreateAudioConnection] hands out.  The
    hook reads [audioContext], [sourceNode], [filters], [analyser] and
    writes [analyser]; [refCount] belongs to the manager. *)
Record AudioConnection : Type := mkAudioConnection {
  audioContext : CtxId;
  sourceNode : NodeId;
  filters : option (list NodeId);
  analyser : option NodeId;
  refCount : nat;
}.

#[export] Instance AudioConnection_inhabited : Inhabited AudioConnection :=
  populate {| audioContext := 0; sourceNode := 0; filters := None;
              analyser := None; refCount := 0 |}.

(** [AudioVisualizerOptions]: every field is optional. *)
Record AudioVisualizerOptions : Type := mkOptions {
  opt_fftSize : option Z;
  opt_smoothingTimeConstant : option Q;
  opt_minDecibels : option Q;
  opt_maxDecibels : option Q;
}.

(** The destructuring defaults of lines 23-28. *)
Definition fftSize_of (o : AudioVisualizerOptions) : Z :=
  default 128%Z (opt_fftSize o).
Definition smoothingTimeConstant_of (o : AudioVisualizerOptions) : Q :=
  default 0.8%Q (opt_smoothingTimeConstant o).
Definition minDecibels_of (o : AudioVisualizerOptions) : Q :=
  default (-90)%Q (opt_minDecibels o).
Definition maxDecibels_of (o : AudioVisualizerOptions) : Q :=
  default (-10)%Q (opt_maxDecibels o).

(** ** The world outside the hook *)

Record World : Type := mkWorld {
  (** Web Audio *)
  contexts : gmap CtxId AudioContext;
  analysers : gmap NodeId AnalyserNode;
  edges : list (NodeId * NodeId);          (* [a.connect(b)] made so far *)
  nextNode : NodeId;                       (* allocation counter *)
  (** connection manager *)
  connections : gmap ConnId AudioConnection;
  boundElsewhere : gset AudioElement;
  (** console.error lines, oldest first *)
  console : list (string * Error);
  (** frame scheduler: pending requests, handle counter *)
  pendingFrames : list (FrameHandle * CallbackId);
  nextFrame : FrameHandle;
  (** callback invocations observed so far, oldest first *)
  invoked : list (CallbackId * list byte);
}.

Definition with_analysers (f : gmap NodeId AnalyserNode → gmap NodeId AnalyserNode)
    (w : World) : World :=
  {| contexts := contexts w; analysers := f (analysers w); edges := edges w;
     nextNode := nextNode w; connections := connections w;
     boundElsewhere := boundElsewhere w; console := console w;
     pendingFrames := pendingFrames w; nextFrame := nextFrame w;
     invoked := invoked w |}.

Definition with_edges (f : list (NodeId * NodeId) → list (NodeId * NodeId))
    (w : World) : World :=
  {| contexts := contexts w; analysers := analysers w; edges := f (edges w);
     nextNode := nextNode w; connections := connections w;
     boundElsewhere := boundElsewhere w; console := console w;
     pendingFrames := pendingFrames w; nextFrame := nextFrame w;
     invoked := invoked w |}.

Definition with_nextNode (n : NodeId) (w : World) : World :=
  {| contexts := contexts w; analysers := analysers w; edges := edges w;
     nextNode := n; connections := connections w;
     boundElsewhere := boundElsewhere w; console := console w;
     pendingFrames := pendingFrames w; nextFrame := nextFrame w;
     invoked := invoked w |}.

Definition with_connections
    (f : gmap ConnId AudioConnection → gmap ConnId AudioConnection)
    (w : World) : World :=
  {| contexts := contexts w; analysers := analysers w; edges := edges w;
     nextNode := nextNode w; connections := f (connections w);
     boundElsewhere := boundElsewhere w; console := console w;
     pendingFrames := pendingFrames w; nextFrame := nextFrame w;
     invoked := invoked w |}.

Definition with_console (f : list (string * Error) → list (string * Error))
    (w : World) : World :=
  {| contexts := contexts w; analysers := analysers w; edges := edges w;
     nextNode := nextNode w; connections := connections w;
     boundElsewhere := boundElsewhere w; console := f (console w);
     pendingFrames := pendingFrames w; nextFrame := nextFrame w;
     invoked := invoked w |}.

Definition with_frames (p : list (FrameHandle * CallbackId)) (n : FrameHandle)
    (w : World) : World :=
  {| contexts := contexts w; analysers := analysers w; edges := edges w;
     nextNode := nextNode w; connections := connections w;
     boundElsewhere := boundElsewhere w; console := console w;
     pendingFrames := p; nextFrame := n;
     invoked := invoked w |}.

Definition with_invoked
    (f : list (CallbackId * list byte) → list (CallbackId * list byte))
    (w : World) : World :=
  {| contexts := contexts w; analysers := analysers w; edges := edges w;
     nextNode := nextNode w; connections := connections w;
     boundElsewhere := boundElsewhere w; console := console w;
     pendingFrames := pendingFrames w; nextFrame := nextFrame w;
     invoked := f (invoked w) |}.

(** The audio currently flowing through the graph, as each analyser
    would report it: byte [k] of the spectrum and of the waveform. *)
Record Signal : Type := mkSignal {
  byteFrequency : NodeId → nat → byte;
  byteTimeDomain : NodeId → nat → byte;
}.

(** ** The hook's own state

    The four [useRef] cells and the two [useState] cells.  A state
    setter is applied at once: the guard of [initialize] also tests
    [audioContextRef], which is written on the only path that calls
    [setIsInitialized(true)], so a stale [isInitialized] in the closure
    never changes its outcome. *)
Record Hook : Type := mkHook {
  audioContextRef : option CtxId;
  analyserRef : option NodeId;
  sourceRef : option NodeId;
  animationFrameRef : option FrameHandle;
  frequencyData : list byte;
  isInitialized : bool;
}.

(** The values of the first render: [useRef(null)], [new Uint8Array(0)],
    [useState(false)]. *)
Definition mount : Hook :=
  {| audioContextRef := None; analyserRef := None; sourceRef := None;
     animationFrameRef := None; frequencyData := []; isInitialized := false |}.

Definition set_audioContextRef (v : option CtxId) (h : Hook) : Hook :=
  {| audioContextRef := v; analyserRef := analyserRef h;
     sourceRef := sourceRef h; animationFrameRef := animationFrameRef h;
     frequencyData := frequencyData h; isInitialized := isInitialized h |}.

Definition set_analyserRef (v : option NodeId) (h : Hook) : Hook :=
  {| audioContextRef := audioContextRef h; analyserRef := v;
     sourceRef := sourceRef h; animationFrameRef := animationFrameRef h;
     frequencyData := frequencyData h; isInitialized := isInitialized h |}.

Definition set_sourceRef (v : option NodeId) (h : Hook) : Hook :=
  {| audioContextRef := audioContextRef h; analyserRef := analyserRef h;
     sourceRef := v; animationFrameRef := animationFrameRef h;
     frequencyData := frequencyData h; isInitialized := isInitialized h |}.

Definition set_animationFrameRef (v : option FrameHandle) (h : Hook) : Hook :=
  {| audioContextRef := audioContextRef h; analyserRef := analyserRef h;
     sourceRef := sourceRef h; animationFrameRef := v;
     frequencyData := frequencyData h; isInitialized := isInitialized h |}.

Definition setFrequencyData (v : list byte) (h : Hook) : Hook :=
  {| audioContextRef := audioContextRef h; analyserRef := analyserRef h;
     sourceRef := sourceRef h; animationFrameRef := animationFrameRef h;
     frequencyData := v; isInitialized := isInitialized h |}.

Definition setIsInitialized (v : bool) (h : Hook) : Hook :=
  {| audioContextRef := audioContextRef h; analyserRef := analyserRef h;
     sourceRef := sourceRef h; animationFrameRef := animationFrameRef h;
     frequencyData := frequencyData h; isInitialized := v |}.

(** ** Computations that may throw

    A statement of the hook either completes or throws; in both cases
    the writes made so far to the refs and to the world stay. *)
Inductive Outcome (A : Type) : Type :=
| Ok (a : A) (h : Hook) (w : World)
| Raise (e : Error) (h : Hook) (w : World).
Arguments Ok {A} a h w.
Arguments Raise {A} e h w.

Definition M (A : Type) : Type := Hook → World → Outcome A.

Definition ret {A} (a : A) : M A := λ h w, Ok a h w.

Definition bind {A B} (m : M A) (k : A → M B) : M B :=
  λ h w, match m h w with
         | Ok a h' w' => k a h' w'
         | Raise e h' w' => Raise e h' w'
         end.

Declare Scope hook_scope.
Delimit Scope hook_scope with hook.
Notation "x <- m ;; k" := (bind m (λ x, k))
  (at level 100, m at level 99, k at level 200, right associativity,
   format "'[v' x  <-  m  ;; '/' k ']'") : hook_scope.
Notation "m ;; k" := (bind m (λ _, k))
  (at level 100, k at level 200, right associativity,
   format "'[v' m  ;; '/' k ']'") : hook_scope.

(** [try { body } catch (error) { handler }] *)
Definition try_catch {A} (body : M A) (handler : Error → M A) : M A :=
  λ h w, match body h w with
         | Ok a h' w' => Ok a h' w'
         | Raise e h' w' => handler e h' w'
         end.

(** A write to a ref or a state cell, a write to the world. *)
Definition modify_hook (f : Hook → Hook) : M unit := λ h w, Ok tt (f h) w.
Definition modify_world (f : World → World) : M unit := λ h w, Ok tt h (f w).

(** What a call into the manager comes back with. *)
Inductive Reply (A : Type) : Type :=
| Returns (a : A) (w : World)
| Throws (e : Error) (w : World).
Arguments Returns {A} a w.
Arguments Throws {A} e w.

Definition call {A} (f : World → Reply A) : M A :=
  λ h w, match f w with
         | Returns a w' => Ok a h w'
         | Throws e w' => Raise e h w'
         end.

Definition world_of {A} (r : Reply A) : World :=
  match r with Returns _ w => w | Throws _ w => w end.

(** ** The Web Audio operations the hook uses *)

(** The values the [fftSize] setter accepts: a power of two between 32
    and 32768 (line 13); anything else throws. *)
Definition valid_fftSize (v : Z) : bool :=
  bool_decide (v ∈ [32; 64; 128; 256; 512; 1024; 2048; 4096; 8192; 16384;
                    32768]%Z).

(** The values the [smoothingTimeConstant] setter accepts: 0 to 1
    (line 14). *)
Definition valid_smoothingTimeConstant (v : Q) : bool :=
  Qle_bool 0 v && Qle_bool v 1.

(** [ctx.createAnalyser()]: a fresh node with the platform's defaults. *)
Definition createAnalyser (ctx : CtxId) : M NodeId :=
  λ h w, Ok (nextNode w) h
            (with_nextNode (S (nextNode w))
               (with_analysers <[nextNode w := freshAnalyser]> w)).

(** [a.fftSize = v] *)
Definition set_fftSize (a : NodeId) (v : Z) : M unit :=
  λ h w,
    if valid_fftSize v
    then Ok tt h (with_analysers
                    (alter (λ n, {| fftSize := v;
                                    smoothingTimeConstant := smoothingTimeConstant n;
                                    minDecibels := minDecibels n;
                                    maxDecibels := maxDecibels n |}) a) w)
    else Raise IndexSizeError h w.

(** [a.smoothingTimeConstant = v] *)
Definition set_smoothingTimeConstant (a : NodeId) (v : Q) : M unit :=
  λ h w,
    if valid_smoothingTimeConstant v
    then Ok tt h (with_analysers
                    (alter (λ n, {| fftSize := fftSize n;
                                    smoothingTimeConstant := v;
                                    minDecibels := minDecibels n;
                                    maxDecibels := maxDecibels n |}) a) w)
    else Raise IndexSizeError h w.

(** [a.minDecibels = v].  The source documents no constraint on the
    decibel range (lines 15-16); the setters store what they are
    given. *)
Definition set_minDecibels (a : NodeId) (v : Q) : M unit :=
  modify_world
    (with_analysers
       (alter (λ n, {| fftSize := fftSize n;
                       smoothingTimeConstant := smoothingTimeConstant n;
                       minDecibels := v;
                       maxDecibels := maxDecibels n |}) a)).

(** [a.maxDecibels = v] *)
Definition set_maxDecibels (a : NodeId) (v : Q) : M unit :=
  modify_world
    (with_analysers
       (alter (λ n, {| fftSize := fftSize n;
                       smoothingTimeConstant := smoothingTimeConstant n;
                       minDecibels := minDecibels n;
                       maxDecibels := v |}) a)).

(** Reading a node or a connection through its reference.  A reference
    always points at a live object, so the lookups are total; the
    default of [!!!] is never consulted for a reference obtained from
    [createAnalyser]. *)
Definition read_analyser (a : NodeId) : M AnalyserNode :=
  λ h w, Ok (analysers w !!! a) h w.

Definition read_connection (c : ConnId) : M AudioConnection :=
  λ h w, Ok (connections w !!! c) h w.

(** [connection.analyser = a] *)
Definition write_connection_analyser (c : ConnId) (a : NodeId) : M unit :=
  modify_world
    (with_connections
       (λ cs, <[c := {| audioContext := audioContext (cs !!! c);
                        sourceNode := sourceNode (cs !!! c);
                        filters := filters (cs !!! c);
                        analyser := Some a;
                        refCount := refCount (cs !!! c) |}]> cs)).

(** [console.error(msg, error)] *)
Definition console_error (msg : string) (e : Error) : M unit :=
  modify_world (with_console (λ l, l ++ [(msg, e)])).

(** [new Uint8Array(n)]: [n] zero bytes. *)
Definition Uint8Array (n : Z) : list byte := replicate (Z.to_nat n) x00.

(** [a.getByteFrequencyData(array)] and [a.getByteTimeDomainData(array)]:
    the first [frequencyBinCount] slots of the array receive the node's
    current bytes, slots beyond stay as they are. *)
Definition getByteFrequencyData (s : Signal) (w : World) (a : NodeId)
    (array : list byte) : list byte :=
  imap (λ k old,
          if bool_decide (Z.of_nat k < frequencyBinCount (analysers w !!! a))%Z
          then byteFrequency s a k else old) array.

Definition getByteTimeDomainData (s : Signal) (w : World) (a : NodeId)
    (array : list byte) : list byte :=
  imap (λ k old,
          if bool_decide (Z.of_nat k < frequencyBinCount (analysers w !!! a))%Z
          then byteTimeDomain s a k else old) array.

(** [requestAnimationFrame(task)]: a new handle, the task is pending. *)
Definition requestAnimationFrame (task : CallbackId) (w : World)
    : FrameHandle * World :=
  (nextFrame w,
   with_frames (pendingFrames w ++ [(nextFrame w, task)]) (S (nextFrame w)) w).

(** [cancelAnimationFrame(handle)] *)
Definition cancelAnimationFrame (handle : FrameHandle) (w : World) : World :=
  with_frames (filter (λ p, p.1 ≠ handle) (pendingFrames w)) (nextFrame w) w.

(** ** The connection manager, as the hook sees it *)

Class AudioContextManager : Type := {
  getOrCreateAudioConnection : AudioElement → World → Reply (option ConnId);
  releaseAudioConnection : AudioElement → World → Reply unit;
  ensureConnectionChain : ConnId → World → Reply unit;
}.

(** ** The hook *)

Section useAudioVisualizer.

Context {manager : AudioContextManager}.

(** Whether [a.connect(b)] throws, and what. *)
Variable hookupError : NodeId → NodeId → option Error.

(** The hook's arguments. *)
Variable audioElement : option AudioElement.
Variable options : AudioVisualizerOptions.

(** [from.connect(to)] *)
Definition connect (from to : NodeId) : M unit :=
  λ h w, match hookupError from to with
         | Some e => Raise e h w
         | None => Ok tt h (with_edges (λ es, es ++ [(from, to)]) w)
         end.

(** Lines 76-88: the inner [try] that taps the chain. *)
Definition connectCustomAnalyser (connection : AudioConnection)
    (customAnalyser : NodeId) : M unit :=
  try_catch
    (match filters connection with
     | Some fs =>
         if bool_decide (0 < length fs)
         then let lastFilter := fs !!! (length fs - 1) in
              connect lastFilter customAnalyser
         else connect (sourceNode connection) customAnalyser
     | None => connect (sourceNode connection) customAnalyser
     end)
    (λ error,
       console_error "[useAudioVisualizer] Error connecting custom analyser:"
                     error).

(** Lines 57-63: the connection's shared analyser, created when absent. *)
Definition sharedAnalyser (c : ConnId) (connection : AudioConnection)
    : M NodeId :=
  (match analyser connection with
   | Some a => ret a
   | None =>
       a <- createAnalyser (audioContext connection) ;;
       set_fftSize a 2048 ;;
       set_smoothingTimeConstant a 0.75 ;;
       write_connection_analyser c a ;;
       ret a
   end)%hook.

(** Lines 45-100: the body of the outer [try].  The fields
    [audioContext], [sourceNode] and [filters] are read once: nothing
    between the call that returns the connection and their uses writes
    them. *)
Definition initialize_body (el : AudioElement) : M unit :=
  (acquired <- call (getOrCreateAudioConnection el) ;;
   match acquired with
   | None => ret tt
   | Some c =>
       connection <- read_connection c ;;
       analyser <- sharedAnalyser c connection ;;
       customAnalyser <- createAnalyser (audioContext connection) ;;
       set_fftSize customAnalyser (fftSize_of options) ;;
       set_smoothingTimeConstant customAnalyser
         (smoothingTimeConstant_of options) ;;
       set_minDecibels customAnalyser (minDecibels_of options) ;;
       set_maxDecibels customAnalyser (maxDecibels_of options) ;;
       modify_hook (set_analyserRef (Some customAnalyser)) ;;
       connectCustomAnalyser connection customAnalyser ;;
       modify_hook (set_audioContextRef (Some (audioContext connection))) ;;
       modify_hook (set_sourceRef (Some (sourceNode connection))) ;;
       call (ensureConnectionChain c) ;;
       node <- read_analyser analyser ;;
       let bufferLength := frequencyBinCount node in
       modify_hook (setFrequencyData (Uint8Array bufferLength)) ;;
       modify_hook (setIsInitialized true)
   end)%hook.

(** Lines 41-104: [initialize].  Nothing escapes the outer [try]. *)
Definition initialize (h : Hook) (w : World) : Hook * World :=
  match audioElement with
  | None => (h, w)
  | Some el =>
      if isInitialized h || bool_decide (is_Some (audioContextRef h))
      then (h, w)
      else match initialize_body el h w with
           | Ok _ h' w' => (h', w')
           | Raise error h' w' =>
               (h', with_console
                      (λ l, l ++ [("Failed to initialize audio visualizer:",
                                   error)]) w')
           end
  end.

(** Lines 114-122: [getFrequencyData]. *)
Definition getFrequencyData (s : Signal) (h : Hook) (w : World) : list byte :=
  match analyserRef h with
  | None => Uint8Array 0
  | Some a =>
      let bufferLength := frequencyBinCount (analysers w !!! a) in
      let dataArray := Uint8Array bufferLength in
      getByteFrequencyData s w a dataArray
  end.

(** Lines 125-133: [getTimeDomainData]. *)
Definition getTimeDomainData (s : Signal) (h : Hook) (w : World) : list byte :=
  match analyserRef h with
  | None => Uint8Array 0
  | Some a =>
      let bufferLength := frequencyBinCount (analysers w !!! a) in
      let dataArray := Uint8Array bufferLength in
      getByteTimeDomainData s w a dataArray
  end.

(** Lines 140-147: one tick of the loop started for [callback]. *)
Definition updateData (s : Signal) (callback : CallbackId)
    (h : Hook) (w : World) : Hook * World :=
  match analyserRef h with
  | None => (h, w)
  | Some _ =>
      let data := getFrequencyData s h w in
      let w1 := with_invoked (λ l, l ++ [(callback, data)]) w in
      let '(handle, w2) := requestAnimationFrame callback w1 in
      (set_animationFrameRef (Some handle) h, w2)
  end.

(** Lines 136-152: [startVisualization]. *)
Definition startVisualization (s : Signal) (callback : CallbackId)
    (h : Hook) (w : World) : Hook * World :=
  match analyserRef h with
  | None => (h, w)
  | Some _ => updateData s callback h w
  end.

(** Lines 155-160: [stopVisualization]. *)
Definition stopVisualization (h : Hook) (w : World) : Hook * World :=
  match animationFrameRef h with
  | Some handle =>
      (set_animationFrameRef None h, cancelAnimationFrame handle w)
  | None => (h, w)
  end.

(** Lines 211-213: [getSampleRate]. *)
Definition getSampleRate (h : Hook) (w : World) : Z :=
  default 44100%Z
    (ctx ← audioContextRef h; sampleRate <$> contexts w !! ctx).

(** Lines 216-218: [getFFTSize]. *)
Definition getFFTSize (h : Hook) (w : World) : Z :=
  default (fftSize_of options)
    (a ← analyserRef h; Some (fftSize (analysers w !!! a))).

(** Lines 195-207: the cleanup run on unmount. *)
Definition cleanup : M unit :=
  ((λ h w, let '(h', w') := stopVisualization h w in Ok tt h' w') ;;
   match audioElement with
   | Some el => call (releaseAudioConnection el)
   | None => ret tt
   end ;;
   modify_hook (set_audioContextRef None) ;;
   modify_hook (set_analyserRef None) ;;
   modify_hook (set_sourceRef None) ;;
   modify_hook (setIsInitialized false))%hook.

(** The display delivers a frame: every request pending at that moment
    runs once; requests made meanwhile wait for the next frame. *)
Definition displayFrame (s : Signal) (h : Hook) (w : World) : Hook * World :=
  foldl (λ st p, updateData s p.2 st.1 st.2)
        (h, with_frames [] (nextFrame w) w)
        (pendingFrames w).

(** What a user of the hook and the display can do to the loop; [s] is
    the audio at that moment. *)
Inductive LoopOp : Type :=
| Start (s : Signal) (callback : CallbackId)
| Stop
| Frame (s : Signal).

Definition loop_step (op : LoopOp) (st : Hook * World) : Hook * World :=
  match op with
  | Start s callback => startVisualization s callback st.1 st.2
  | Stop => stopVisualization st.1 st.2
  | Frame s => displayFrame s st.1 st.2
  end.

Definition loop_run (ops : list LoopOp) (st : Hook * World) : Hook * World :=
  foldl (λ st op, loop_step op st) st ops.

(** One start/stop cycle: a start, one display frame per element of
    [frames], a stop. *)
Definition cycle (s : Signal) (callback : CallbackId) (frames : list Signal)
    : list LoopOp :=
  Start s callback :: map Frame frames ++ [Stop].

Definition cycles (l : list (Signal * CallbackId * list Signal))
    : list LoopOp :=
  flat_map (λ p, cycle p.1.1 p.1.2 p.2) l.

(** Everything that can happen to a mounted hook: the gesture handler
    calls [initialize], the component unmounts, the loop is driven.  An
    exception that escapes [cleanup] leaves the writes made before it. *)
Inductive HookOp : Type :=
| Initialize
| Cleanup
| Loop (op : LoopOp).

Definition settle {A} (o : Outcome A) : Hook * World :=
  match o with
  | Ok _ h w => (h, w)
  | Raise _ h w => (h, w)
  end.

Definition hook_step (op : HookOp) (st : Hook * World) : Hook * World :=
  match op with
  | Initialize => initialize st.1 st.2
  | Cleanup => settle (cleanup st.1 st.2)
  | Loop op => loop_step op st
  end.

Definition hook_run (ops : list HookOp) (st : Hook * World) : Hook * World :=
  foldl (λ st op, hook_step op st) st ops.

End useAudioVisualizer.

(** ** The stages of [initialize], in closed form *)

(** The settings lines 67-70 write to the custom analyser. *)
Definition configured (o : AudioVisualizerOptions) : AnalyserNode :=
  {| fftSize := fftSize_of o;
     smoothingTimeConstant := smoothingTimeConstant_of o;
     minDecibels := minDecibels_of o;
     maxDecibels := maxDecibels_of o |}.

(** The node the tap hangs off: the last filter of the chain when there
    is one, the source node otherwise. *)
Definition tapPoint (conn : AudioConnection) : NodeId :=
  default (sourceNode conn) (filters conn ≫= last).

(** The world after lines 59-62 created the shared analyser of
    connection [c]. *)
Definition shared_installed (c : ConnId) (w : World) : World :=
  with_connections
    (λ cs, <[c := {| audioContext := audioContext (cs !!! c);
                     sourceNode := sourceNode (cs !!! c);
                     filters := filters (cs !!! c);
                     analyser := Some (nextNode w);
                     refCount := refCount (cs !!! c) |}]> cs)
    (with_nextNode (S (nextNode w))
       (with_analysers
          <[nextNode w := {| fftSize := 2048; smoothingTimeConstant := 0.75;
                             minDecibels := -100; maxDecibels := -30 |}]> w)).

(** The world after lines 66-70 created and configured the custom
    analyser. *)
Definition tapped (o : AudioVisualizerOptions) (w : World) : World :=
  with_nextNode (S (nextNode w))
    (with_analysers <[nextNode w := configured o]> w).

(** The world after lines 76-88 tried to connect [custom]. *)
Definition hooked_up (hookupError : NodeId → NodeId → option Error)
    (conn : AudioConnection) (custom : NodeId) (w : World) : World :=
  match hookupError (tapPoint conn) custom with
  | None => with_edges (λ es, es ++ [(tapPoint conn, custom)]) w
  | Some e =>
      with_console
        (λ l, l ++ [("[useAudioVisualizer] Error connecting custom analyser:",
                     e)]) w
  end.

(** The refs after lines 71, 90 and 91. *)
Definition refs_set (conn : AudioConnection) (custom : NodeId) (h : Hook)
    : Hook :=
  set_sourceRef (Some (sourceNode conn))
    (set_audioContextRef (Some (audioContext conn))
       (set_analyserRef (Some custom) h)).

(** The worlds lines 67 and 68 leave behind when the setter rejects the
    caller's value. *)
Definition fftSize_rejected (w : World) : World :=
  with_nextNode (S (nextNode w))
    (with_analysers <[nextNode w := freshAnalyser]> w).

Definition smoothing_rejected (o : AudioVisualizerOptions) (w : World)
    : World :=
  with_nextNode (S (nextNode w))
    (with_analysers
       <[nextNode w := {| fftSize := fftSize_of o;
                          smoothingTimeConstant := 0.8;
                          minDecibels := -100; maxDecibels := -30 |}]> w).

(** The shared analyser of connection [c] as line 57 or 59 binds it,
    and the world after lines 57-63. *)
Definition shared_of (c : ConnId) (w : World) : NodeId :=
  default (nextNode w) (analyser (connections w !!! c)).

Definition shared_world (c : ConnId) (w : World) : World :=
  match analyser (connections w !!! c) with
  | Some _ => w
  | None => shared_installed c w
  end.

(** ** Shared analysers and the private tap *)

(** [a] is the shared analyser of some connection. *)
Definition shared_analyser (w : World) (a : NodeId) : Prop :=
  ∃ c conn, connections w !! c = Some conn ∧ analyser conn = Some a.

(** The node the hook samples is allocated and is no connection's
    shared analyser. *)
Definition private_tap (h : Hook) (w : World) : Prop :=
  ∀ a, analyserRef h = Some a → a < nextNode w ∧ ¬ shared_analyser w a.

(** Two signals that differ at most in what shared analysers report. *)
Definition same_off_shared (w : World) (s1 s2 : Signal) : Prop :=
  ∀ a k, ¬ shared_analyser w a →
         byteFrequency s1 a k = byteFrequency s2 a k
         ∧ byteTimeDomain s1 a k = byteTimeDomain s2 a k.

(** ** States of the frame loop *)

(** No loop is running: nothing is pending and no handle is held. *)
Definition idle (st : Hook * World) : Prop :=
  pendingFrames st.2 = [] ∧ animationFrameRef st.1 = None.

(** One loop is running: its next tick is the only pending request and
    the hook holds its handle. *)
Definition looping (st : Hook * World) : Prop :=
  ∃ handle callback,
    pendingFrames st.2 = [(handle, callback)]
    ∧ animationFrameRef st.1 = Some handle
    ∧ is_Some (analyserRef st.1).

(** ** Well-formed worlds

    Node references held by connection objects and by the edges of the
    graph were handed out by the allocation counter. *)
Definition connection_nodes (conn : AudioConnection) : list NodeId :=
  sourceNode conn :: default [] (filters conn) ++ option_list (analyser conn).

Record wf (w : World) : Prop := mk_wf {
  wf_connections :
    ∀ c conn, connections w !! c = Some conn →
              Forall (λ n, n < nextNode w) (connection_nodes conn);
  wf_edges : Forall (λ e, e.1 < nextNode w) (edges w);
}.

(** The invariant of a mounted hook. *)
Definition hook_inv (st : Hook * World) : Prop :=
  wf st.2 ∧ private_tap st.1 st.2.

(** ** What the hook relies on from the manager

    The manager's code is not part of the hook's file.  These are the
    properties of it the hook's correctness rests on, after section 4.1
    of the spec: a call into the manager forges no node reference, never
    rolls the allocation counter back and installs no shared analyser
    ([acquire] constructs a connection with "no analyser yet", the hook
    installs it); the connection [getOrCreateAudioConnection] hands out
    exists; [ensureConnectionChain] links nodes of the connection it is
    given and leaves analyser settings alone. *)
Record manager_step (w w' : World) : Prop := mk_manager_step {
  step_wf : wf w → wf w';
  step_nextNode : nextNode w ≤ nextNode w';
  step_shared : ∀ a, shared_analyser w' a → shared_analyser w a;
}.

Class ManagerLaws (manager : AudioContextManager) : Prop := {
  acquire_step :
    ∀ el w, manager_step w (world_of (getOrCreateAudioConnection el w));
  acquire_live :
    ∀ el w c w', getOrCreateAudioConnection el w = Returns (Some c) w' →
                 is_Some (connections w' !! c);
  release_step :
    ∀ el w, manager_step w (world_of (releaseAudioConnection el w));
  ensure_step :
    ∀ c w, manager_step w (world_of (ensureConnectionChain c w));
  ensure_analysers :
    ∀ c w, analysers (world_of (ensureConnectionChain c w)) = analysers w;
  ensure_edges :
    ∀ c w x y,
      (x, y) ∈ edges (world_of (ensureConnectionChain c w)) →
      (x, y) ∈ edges w ∨ x ∈ connection_nodes (connections w !!! c);
}.

(** ** A manager to run the hook against *)

Module SpecManager.

(** Modelled from the spec: [acquire(sourceId)] of section 4.1, the
    [getOrCreateAudioConnection] of [@/utils/audioContextManager], which
    is not among the sources.  A source bound to a graph the registry
    does not own is unavailable; an existing connection is returned with
    its reference count incremented; otherwise a new one is constructed
    (source node, empty filter chain, no analyser yet).  Connections are
    keyed by the source's identity. *)
Definition acquire (el : AudioElement) (w : World) : Reply (option ConnId) :=
  if bool_decide (el ∈ boundElsewhere w) then Returns None w
  else match connections w !! el with
       | Some conn =>
           Returns (Some el)
             (with_connections
                <[el := {| audioContext := audioContext conn;
                           sourceNode := sourceNode conn;
                           filters := filters conn;
                           analyser := analyser conn;
                           refCount := S (refCount conn) |}]> w)
       | None =>
           Returns (Some el)
             (with_nextNode (S (nextNode w))
                (with_connections
                   <[el := {| audioContext := 0;
                              sourceNode := nextNode w;
                              filters := Some [];
                              analyser := None;
                              refCount := 1 |}]> w))
       end.

(** Modelled from the spec: [release(sourceId)] of section 4.1, the
    [releaseAudioConnection] of the absent manager.  The reference count
    is decremented; at zero every node of the connection is disconnected
    and the registry entry is removed. *)
Definition release (el : AudioElement) (w : World) : Reply unit :=
  match connections w !! el with
  | None => Returns tt w
  | Some conn =>
      if bool_decide (refCount conn ≤ 1)
      then Returns tt
             (with_connections (delete el)
                (with_edges
                   (filter (λ e, (e.1 ∉ connection_nodes conn)
                                 ∧ (e.2 ∉ connection_nodes conn))) w))
      else Returns tt
             (with_connections
                <[el := {| audioContext := audioContext conn;
                           sourceNode := sourceNode conn;
                           filters := filters conn;
                           analyser := analyser conn;
                           refCount := refCount conn - 1 |}]> w)
  end.

(** Modelled from the spec: the links [ensureChainComplete] maintains,
    source to first filter, filter to filter, last filter to the
    destination. *)
Definition chain (conn : AudioConnection) (dest : NodeId)
    : list (NodeId * NodeId) :=
  let path := sourceNode conn :: default [] (filters conn) in
  zip path (tail path ++ [dest]).

(** Modelled from the spec: [ensureChainComplete(connection)] of section
    4.1, the [ensureConnectionChain] of the absent manager.  A link that
    is already there is left alone. *)
Definition ensureChainComplete (c : ConnId) (w : World) : Reply unit :=
  match connections w !! c with
  | None => Returns tt w
  | Some conn =>
      let dest := default 0 (destination <$> contexts w !! audioContext conn) in
      Returns tt
        (with_edges
           (λ es, foldl (λ es e, if bool_decide (e ∈ es) then es
                                 else es ++ [e])
                        es (chain conn dest)) w)
  end.

Definition manager : AudioContextManager :=
  {| getOrCreateAudioConnection := acquire;
     releaseAudioConnection := release;
     ensureConnectionChain := ensureChainComplete |}.

End SpecManager.

(** ** Sample worlds *)

Module Sample.

(** A page with one audio context (48 kHz, destination node 0) and no
    connection yet. *)
Definition page : World :=
  {| contexts := {[ 0 := {| sampleRate := 48000; destination := 0 |} ]};
     analysers := ∅; edges := []; nextNode := 1;
     connections := ∅; boundElsewhere := ∅; console := [];
     pendingFrames := []; nextFrame := 1; invoked := [] |}.

(** The same page after the player wired audio element 7 through an
    equalizer of two filters: source 1, filters 2 and 3. *)
Definition page_with_equalizer : World :=
  {| contexts := {[ 0 := {| sampleRate := 48000; destination := 0 |} ]};
     analysers := ∅; edges := [(1, 2); (2, 3); (3, 0)]; nextNode := 4;
     connections := {[ 7 := {| audioContext := 0; sourceNode := 1;
                               filters := Some [2; 3]; analyser := None;
                               refCount := 1 |} ]};
     boundElsewhere := ∅; console := [];
     pendingFrames := []; nextFrame := 1; invoked := [] |}.

(** A page where audio element 7 is already wired to a graph the
    manager does not own. *)
Definition page_bound_elsewhere : World :=
  {| contexts := {[ 0 := {| sampleRate := 48000; destination := 0 |} ]};
     analysers := ∅; edges := []; nextNode := 1;
     connections := ∅; boundElsewhere := {[ 7 ]}; console := [];
     pendingFrames := []; nextFrame := 1; invoked := [] |}.

(** No option given: every default applies. *)
Definition no_options : AudioVisualizerOptions :=
  {| opt_fftSize := None; opt_smoothingTimeConstant := None;
     opt_minDecibels := None; opt_maxDecibels := None |}.

(** A platform on which every [connect] succeeds, and one on which
    every [connect] throws. *)
Definition hookup_fine : NodeId → NodeId → option Error := λ _ _, None.
Definition hookup_broken : NodeId → NodeId → option Error :=
  λ _ _, Some InvalidAccessError.

(** Silence: every analyser reports zero bytes. *)
Definition silence : Signal :=
  {| byteFrequency := λ _ _, x00; byteTimeDomain := λ _ _, x00 |}.

(** Options with an FFT size the platform rejects. *)
Definition odd_options : AudioVisualizerOptions :=
  {| opt_fftSize := Some 100%Z; opt_smoothingTimeConstant := None;
     opt_minDecibels := None; opt_maxDecibels := None |}.

(** A signal on which node 2 alone is loud. *)
Definition hum : Signal :=
  {| byteFrequency := λ a _, if bool_decide (a = 2) then xff else x00;
     byteTimeDomain := λ a _, if bool_decide (a = 2) then xff else x00 |}.

(** The hook after the first gesture on [page], every option left to
    its default. *)
Definition playing : Hook * World :=
  initialize (manager := SpecManager.manager) hookup_fine (Some 7) no_options
    mount page.

End Sample.

(** ** Further predicates on hook states *)

(** One loop is running for [cb] on the analyser [h0] points at, with
    the analyser settings of [w0]. *)
Definition ticking (cb : CallbackId) (h0 : Hook) (w0 : World)
    (st : Hook * World) : Prop :=
  analyserRef st.1 = analyserRef h0
  ∧ analysers st.2 = analysers w0
  ∧ ∃ handle, pendingFrames st.2 = [(handle, cb)]
              ∧ animationFrameRef st.1 = Some handle.

(** Pending requests carry distinct handles, all handed out already. *)
Definition frames_ok (w : World) : Prop :=
  NoDup (pendingFrames w).*1
  ∧ Forall (λ p, p.1 < nextFrame w) (pendingFrames w).

(** The buffer holds zeros only, and [isInitialized] implies the refs. *)
Definition hook_ok (h : Hook) : Prop :=
  Forall (λ b, b = x00) (frequencyData h)
  ∧ (isInitialized h = true →
     is_Some (audioContextRef h) ∧ is_Some (analyserRef h)
     ∧ is_Some (sourceRef h)).

(** ** The gesture gate (lines 174-191)

    The effect registers one handler for the document's [click] and
    [touchstart] events; the record says for which of the two that
    handler is currently registered. *)

Inductive Gesture : Type :=
| Click
| Touchstart.

Record Listeners : Type := mkListeners {
  onClick : bool;
  onTouchstart : bool;
}.

Definition no_listeners : Listeners :=
  {| onClick := false; onTouchstart := false |}.

Section GestureGate.

Context {manager : AudioContextManager}.
Variable hookupError : NodeId → NodeId → option Error.
Variable audioElement : option AudioElement.
Variable options : AudioVisualizerOptions.

(** Lines 177-181: [handleInteraction] calls [initialize] and removes
    itself from both events. *)
Definition handleInteraction (st : Hook * World * Listeners)
    : Hook * World * Listeners :=
  (initialize hookupError audioElement options st.1.1 st.1.2, no_listeners).

(** Lines 175-184: the body of the effect, run after a render. *)
Definition gestureEffect (h : Hook) (l : Listeners) : Listeners :=
  match audioElement with
  | Some _ =>
      if negb (isInitialized h)
      then {| onClick := true; onTouchstart := true |}
      else l
  | None => l
  end.

(** The document delivers a gesture to the handlers registered for it. *)
Definition dispatch (g : Gesture) (st : Hook * World * Listeners)
    : Hook * World * Listeners :=
  if match g with
     | Click => onClick st.2
     | Touchstart => onTouchstart st.2
     end
  then handleInteraction st
  else st.

Definition dispatch_all (gs : list Gesture) (st : Hook * World * Listeners)
    : Hook * World * Listeners :=
  foldl (λ st g, dispatch g st) st gs.

End GestureGate.

(** ** A manager whose chain repair fails *)

Module Faulty.

(** The manager of [SpecManager] with an [ensureConnectionChain] that
    throws, to exercise the outer [catch] after the refs are written. *)
Definition manager : AudioContextManager :=
  {| getOrCreateAudioConnection := SpecManager.acquire;
     releaseAudioConnection := SpecManager.release;
     ensureConnectionChain :=
       λ _ w, Throws (Thrown "chain repair failed") w |}.

End Faulty.

(** ** More sample data *)

Module Scenario.

(** Options of a second visualizer: 256-point FFT, no smoothing. *)
Definition wide_options : AudioVisualizerOptions :=
  {| opt_fftSize := Some 256%Z; opt_smoothingTimeConstant := Some 0%Q;
     opt_minDecibels := None; opt_maxDecibels := None |}.

(** Two loops started on [Sample.playing] without a stop in between. *)
Definition two_loops : Hook * World :=
  loop_run [Start Sample.silence 1; Start Sample.hum 2] Sample.playing.

End Scenario.

(** * Properties *)

(** ** Running [initialize] *)

Lemma world_eq w1 w2 :
  contexts w1 = contexts w2 → analysers w1 = analysers w2 →
  edges w1 = edges w2 → nextNode w1 = nextNode w2 →
  connections w1 = connections w2 → boundElsewhere w1 = boundElsewhere w2 →
  console w1 = console w2 → pendingFrames w1 = pendingFrames w2 →
  nextFrame w1 = nextFrame w2 → invoked w1 = invoked w2 → w1 = w2.
Proof. destruct w1, w2; simpl; intros; congruence. Qed.

Section Initialize.

Context {manager : AudioContextManager}.
Variable hookupError : NodeId → NodeId → option Error.
Variable options : AudioVisualizerOptions.

Lemma sharedAnalyser_run c conn h w :
  sharedAnalyser c conn h w =
  match analyser conn with
  | Some a => Ok a h w
  | None => Ok (nextNode w) h (shared_installed c w)
  end.
Proof.
  unfold sharedAnalyser. destruct (analyser conn) as [a|]; [done|].
  unfold bind, createAnalyser, set_fftSize, set_smoothingTimeConstant,
    write_connection_analyser, modify_world, ret.
  cbn. f_equal. apply world_eq; cbn; try done.
  by rewrite !alter_insert_eq.
Qed.

Lemma configure_run (k : NodeId → M unit) ctx h w :
  (customAnalyser <- createAnalyser ctx ;;
   set_fftSize customAnalyser (fftSize_of options) ;;
   set_smoothingTimeConstant customAnalyser (smoothingTimeConstant_of options) ;;
   set_minDecibels customAnalyser (minDecibels_of options) ;;
   set_maxDecibels customAnalyser (maxDecibels_of options) ;;
   k customAnalyser)%hook h w =
  if valid_fftSize (fftSize_of options)
  then if valid_smoothingTimeConstant (smoothingTimeConstant_of options)
       then k (nextNode w) h (tapped options w)
       else Raise IndexSizeError h (smoothing_rejected options w)
  else Raise IndexSizeError h (fftSize_rejected w).
Proof.
  unfold bind, createAnalyser, set_fftSize, set_smoothingTimeConstant,
    set_minDecibels, set_maxDecibels, modify_world.
  destruct (valid_fftSize _); [|done]. cbn.
  destruct (valid_smoothingTimeConstant _); cbn.
  - f_equal. apply world_eq; cbn; try done. by rewrite !alter_insert_eq.
  - f_equal. apply world_eq; cbn; try done. by rewrite !alter_insert_eq.
Qed.

Lemma last_filter_is_tapPoint conn fs :
  filters conn = Some fs → 0 < length fs →
  fs !!! (length fs - 1) = tapPoint conn.
Proof.
  intros Hfs Hlen. unfold tapPoint. rewrite Hfs. cbn.
  rewrite last_lookup.
  replace (Nat.pred (length fs)) with (length fs - 1) by lia.
  destruct (lookup_lt_is_Some_2 fs (length fs - 1)) as [x Hx]; [lia|].
  rewrite Hx. cbn. by apply list_lookup_total_correct.
Qed.

Lemma connectCustomAnalyser_run conn a h w :
  connectCustomAnalyser hookupError conn a h w =
  Ok tt h (hooked_up hookupError conn a w).
Proof.
  unfold connectCustomAnalyser, hooked_up, try_catch, connect, console_error,
    modify_world.
  destruct (filters conn) as [fs|] eqn:Hfs.
  - case_bool_decide as Hlen.
    + rewrite (last_filter_is_tapPoint conn fs Hfs Hlen).
      by destruct (hookupError _ _).
    + assert (fs = []) as -> by (destruct fs; cbn in *; [done|lia]).
      unfold tapPoint. rewrite Hfs. cbn. by destruct (hookupError _ _).
  - unfold tapPoint. rewrite Hfs. cbn. by destruct (hookupError _ _).
Qed.

(** The body of [initialize], step by step. *)
Lemma initialize_body_run el h w :
  initialize_body hookupError options el h w =
  match getOrCreateAudioConnection el w with
  | Throws e w0 => Raise e h w0
  | Returns None w0 => Ok tt h w0
  | Returns (Some c) w0 =>
      let conn := connections w0 !!! c in
      let w1 := shared_world c w0 in
      let custom := nextNode w1 in
      if valid_fftSize (fftSize_of options)
      then if valid_smoothingTimeConstant (smoothingTimeConstant_of options)
           then
             let h1 := refs_set conn custom h in
             match ensureConnectionChain c
                     (hooked_up hookupError conn custom (tapped options w1)) with
             | Throws e w3 => Raise e h1 w3
             | Returns _ w3 =>
                 Ok tt
                   (setIsInitialized true
                      (setFrequencyData
                         (Uint8Array
                            (frequencyBinCount
                               (analysers w3 !!! shared_of c w0))) h1))
                   w3
             end
           else Raise IndexSizeError h (smoothing_rejected options w1)
      else Raise IndexSizeError h (fftSize_rejected w1)
  end.
Proof.
  unfold initialize_body. unfold bind at 1, call at 1.
  destruct (getOrCreateAudioConnection el w) as [[c|] w0|e w0]; [|done..].
  unfold bind at 1, read_connection at 1.
  unfold bind at 1. rewrite sharedAnalyser_run.
  unfold shared_world, shared_of.
  destruct (analyser (connections w0 !!! c)) as [a|] eqn:Ha; cbn [default].
  - rewrite configure_run.
    destruct (valid_fftSize _); [|done].
    destruct (valid_smoothingTimeConstant _); [|done].
    unfold bind at 1, modify_hook at 1.
    unfold bind at 1. rewrite connectCustomAnalyser_run.
    unfold bind, modify_hook, call, read_analyser. cbn zeta.
    by destruct (ensureConnectionChain _ _) as [[] w3|e w3].
  - rewrite configure_run.
    destruct (valid_fftSize _); [|done].
    destruct (valid_smoothingTimeConstant _); [|done].
    unfold bind at 1, modify_hook at 1.
    unfold bind at 1. rewrite connectCustomAnalyser_run.
    unfold bind, modify_hook, call, read_analyser. cbn zeta.
    by destruct (ensureConnectionChain _ _) as [[] w3|e w3].
Qed.

End Initialize.

(** ** The claims about [initialize] and the accessors *)

Section Claims.

Context {manager : AudioContextManager}.
Variable hookupError : NodeId → NodeId → option Error.
Variable options : AudioVisualizerOptions.

Lemma initialize_guarded el h w :
  isInitialized h = false → audioContextRef h = None →
  initialize hookupError (Some el) options h w =
  match initialize_body hookupError options el h w with
  | Ok _ h' w' => (h', w')
  | Raise error h' w' =>
      (h', with_console
             (λ l, l ++ [("Failed to initialize audio visualizer:", error)]) w')
  end.
Proof.
  intros Hi Hc. unfold initialize. by rewrite Hi, Hc.
Qed.

Lemma initialize_unguarded audioElement h w :
  audioElement = None ∨ isInitialized h = true ∨ is_Some (audioContextRef h) →
  initialize hookupError audioElement options h w = (h, w).
Proof.
  unfold initialize. intros [->|[Hi|Hc]]; [done|..];
    destruct audioElement; try done.
  - by rewrite Hi.
  - rewrite (bool_decide_eq_true_2 _ Hc). by rewrite orb_true_r.
Qed.

Lemma initialize_cases (audioElement : option AudioElement) (h : Hook) :
  (audioElement = None ∨ isInitialized h = true ∨ is_Some (audioContextRef h))
  ∨ (∃ el, audioElement = Some el ∧ isInitialized h = false
           ∧ audioContextRef h = None).
Proof.
  destruct audioElement as [el|]; [|by left; left].
  destruct (isInitialized h) eqn:Hi; [by left; right; left|].
  destruct (audioContextRef h) as [ctx|] eqn:Hc; [by left; right; right|].
  right. by exists el.
Qed.

(** A body that throws has not reached [setIsInitialized(true)]. *)
Lemma initialize_body_Raise el h w e h' w' :
  initialize_body hookupError options el h w = Raise e h' w' →
  isInitialized h' = isInitialized h.
Proof.
  rewrite initialize_body_run.
  destruct (getOrCreateAudioConnection el w) as [[c|] w0|e0 w0]; [|done|].
  - cbn zeta. destruct (valid_fftSize _); [|by intros [= _ <- _]].
    destruct (valid_smoothingTimeConstant _); [|by intros [= _ <- _]].
    destruct (ensureConnectionChain _ _) as [[] w3|e3 w3]; [done|].
    by intros [= _ <- _].
  - by intros [= _ <- _].
Qed.

(** What a run of [initialize] does to the tap: nothing, or it leaves
    a node configured from the options in [analyserRef]. *)
Lemma initialize_tap `{!ManagerLaws manager} audioElement h w h' w' :
  initialize hookupError audioElement options h w = (h', w') →
  (analyserRef h' = analyserRef h ∧ isInitialized h' = isInitialized h)
  ∨ (∃ a, analyserRef h' = Some a
          ∧ analysers w' !! a = Some (configured options)).
Proof.
  destruct (initialize_cases audioElement h) as [Hn|(el & -> & Hi & Hc)].
  { rewrite (initialize_unguarded _ _ _ Hn). intros [= <- <-]. by left. }
  rewrite (initialize_guarded _ _ _ Hi Hc), initialize_body_run.
  destruct (getOrCreateAudioConnection el w) as [[c|] w0|e0 w0];
    [|intros [= <- <-]; by left..].
  cbn zeta. destruct (valid_fftSize _); [|intros [= <- <-]; by left].
  destruct (valid_smoothingTimeConstant _); [|intros [= <- <-]; by left].
  set (w1 := shared_world c w0).
  set (w2 := hooked_up _ _ _ _).
  assert (Hw2 : analysers w2 !! nextNode w1 = Some (configured options)).
  { unfold w2, hooked_up. destruct (hookupError _ _); cbn;
      by rewrite lookup_insert_eq. }
  pose proof (ensure_analysers c w2) as Hens.
  destruct (ensureConnectionChain c w2) as [[] w3|e3 w3]; cbn in Hens;
    intros [= <- <-]; right; exists (nextNode w1); cbn; by rewrite Hens.
Qed.

(** Claim C8.  [initialize] is a no-op in the initialized state and
    when the playable source is absent: the hook and the world come back
    as they went in, so no connection is acquired, no analyser is
    created and no state cell or ref is written. *)
Theorem initialize_noop audioElement h w :
  isInitialized h = true ∨ audioElement = None →
  initialize hookupError audioElement options h w = (h, w).
Proof. intros [Hi| ->]; apply initialize_unguarded; auto. Qed.

(** Claim C4.  When the manager reports the source as unavailable
    ([getOrCreateAudioConnection] returns null), [initialize] returns
    normally with the hook unchanged and the world exactly as the
    manager left it: [isInitialized] is still false, no analyser node
    was allocated, no buffer was stored and nothing was logged. *)
Theorem initialize_unavailable_skips el h w w0 :
  isInitialized h = false → audioContextRef h = None →
  getOrCreateAudioConnection el w = Returns None w0 →
  let r := initialize hookupError (Some el) options h w in
  r = (h, w0)
  ∧ isInitialized r.1 = false
  ∧ analyserRef r.1 = analyserRef h
  ∧ frequencyData r.1 = frequencyData h
  ∧ analysers r.2 = analysers w0
  ∧ nextNode r.2 = nextNode w0
  ∧ console r.2 = console w0.
Proof.
  intros Hi Hc Hacq. cbn zeta.
  rewrite (initialize_guarded _ _ _ Hi Hc), initialize_body_run, Hacq.
  by cbn.
Qed.

Lemma length_Uint8Array n : length (Uint8Array n) = Z.to_nat n.
Proof. apply length_replicate. Qed.

Lemma length_getFrequencyData s h w a :
  analyserRef h = Some a →
  length (getFrequencyData s h w)
  = Z.to_nat (frequencyBinCount (analysers w !!! a)).
Proof.
  intros Ha. unfold getFrequencyData, getByteFrequencyData. rewrite Ha.
  by rewrite length_imap, length_Uint8Array.
Qed.

Lemma length_getTimeDomainData s h w a :
  analyserRef h = Some a →
  length (getTimeDomainData s h w)
  = Z.to_nat (frequencyBinCount (analysers w !!! a)).
Proof.
  intros Ha. unfold getTimeDomainData, getByteTimeDomainData. rewrite Ha.
  by rewrite length_imap, length_Uint8Array.
Qed.

(** Claim C2.  While no analyser exists, [getFrequencyData] and
    [getTimeDomainData] return an empty array; after a successful
    [initialize] each returns an array of [frequencyBinCount] bytes
    (half the configured FFT size); every element is a byte, 0 to 255.
    Both are total functions: there is no outcome in which they
    throw. *)
Theorem sample_arrays `{!ManagerLaws manager} audioElement s :
  (∀ h w, analyserRef h = None →
          getFrequencyData s h w = [] ∧ getTimeDomainData s h w = [])
  ∧ (∀ h w h' w',
       isInitialized h = false →
       initialize hookupError audioElement options h w = (h', w') →
       isInitialized h' = true →
       length (getFrequencyData s h' w')
       = Z.to_nat (frequencyBinCount (configured options))
       ∧ length (getTimeDomainData s h' w')
         = Z.to_nat (frequencyBinCount (configured options)))
  ∧ (∀ h w, Forall (λ b, (0 ≤ Byte.to_N b ≤ 255)%N) (getFrequencyData s h w)
            ∧ Forall (λ b, (0 ≤ Byte.to_N b ≤ 255)%N)
                     (getTimeDomainData s h w)).
Proof.
  split; [|split].
  - intros h w Hn. unfold getFrequencyData, getTimeDomainData. by rewrite Hn.
  - intros h w h' w' Hi Hrun Hi'.
    destruct (initialize_tap _ _ _ _ _ Hrun) as [[_ Heq]|(a & Ha & Hnode)];
      [congruence|].
    rewrite (length_getFrequencyData _ _ _ _ Ha),
      (length_getTimeDomainData _ _ _ _ Ha).
    by rewrite (lookup_total_correct _ _ _ Hnode).
  - intros h w. split; apply Forall_forall; intros b _; split;
      [apply N.le_0_l|apply Byte.to_N_bounded|apply N.le_0_l
      |apply Byte.to_N_bounded].
Qed.

(** Claim C9.  The analyser [initialize] creates and leaves in
    [analyserRef] carries exactly the caller's options, each replaced by
    its default when omitted: fftSize 128, smoothingTimeConstant 0.8,
    minDecibels -90, maxDecibels -10. *)
Theorem custom_analyser_configured `{!ManagerLaws manager}
    audioElement h w h' w' a :
  analyserRef h = None →
  initialize hookupError audioElement options h w = (h', w') →
  analyserRef h' = Some a →
  analysers w' !! a
  = Some {| fftSize := default 128%Z (opt_fftSize options);
            smoothingTimeConstant :=
              default 0.8%Q (opt_smoothingTimeConstant options);
            minDecibels := default (-90)%Q (opt_minDecibels options);
            maxDecibels := default (-10)%Q (opt_maxDecibels options) |}.
Proof.
  intros Hn Hrun Ha.
  destruct (initialize_tap _ _ _ _ _ Hrun) as [[Heq _]|(a' & Ha' & Hnode)];
    [congruence|].
  by replace a with a' by congruence.
Qed.

Lemma cleanup_Ok audioElement h w h' w' :
  cleanup audioElement h w = Ok tt h' w' →
  audioContextRef h' = None ∧ analyserRef h' = None ∧ sourceRef h' = None
  ∧ isInitialized h' = false.
Proof.
  unfold cleanup, bind, modify_hook, call, ret.
  destruct (stopVisualization h w) as [h1 w1].
  destruct audioElement as [el|].
  - destruct (releaseAudioConnection el w1) as [[] w2|e w2]; [|done].
    by intros [= <- _].
  - by intros [= <- _].
Qed.

(** Claim C10.  On the freshly mounted hook, and again after the
    cleanup has cleared the refs, [getSampleRate] answers 44100 and
    [getFFTSize] answers the [fftSize] option (128 when omitted).  Both
    are total functions: there is no outcome in which they throw. *)
Theorem getters_fall_back audioElement :
  (∀ w, getSampleRate mount w = 44100%Z
        ∧ getFFTSize options mount w = default 128%Z (opt_fftSize options))
  ∧ (∀ h w h' w',
       cleanup audioElement h w = Ok tt h' w' →
       getSampleRate h' w' = 44100%Z
       ∧ getFFTSize options h' w' = default 128%Z (opt_fftSize options)).
Proof.
  split; [done|]. intros h w h' w' Hc.
  destruct (cleanup_Ok _ _ _ _ _ Hc) as (Hctx & Han & _).
  unfold getSampleRate, getFFTSize. by rewrite Hctx, Han.
Qed.

(** Claim C5, as amended.  [initialize] returns a plain pair, so no
    exception reaches its caller.  An exception that escapes the body of
    the outer [try] is logged as "Failed to initialize audio
    visualizer:" and leaves [isInitialized] false.  An exception thrown
    by the hookup of the custom analyser never escapes the inner [try]:
    it is logged as "[useAudioVisualizer] Error connecting custom
    analyser:" and the body carries on. *)
Theorem initialize_catches_everything el h w :
  isInitialized h = false → audioContextRef h = None →
  (∀ e h1 w1,
     initialize_body hookupError options el h w = Raise e h1 w1 →
     initialize hookupError (Some el) options h w
     = (h1, with_console
              (λ l, l ++ [("Failed to initialize audio visualizer:", e)]) w1)
     ∧ isInitialized h1 = false)
  ∧ (∀ h1 w1,
       initialize_body hookupError options el h w = Ok tt h1 w1 →
       initialize hookupError (Some el) options h w = (h1, w1))
  ∧ (∀ conn custom h0 w0,
       ∃ w1, connectCustomAnalyser hookupError conn custom h0 w0 = Ok tt h0 w1
             ∧ ∀ e, hookupError (tapPoint conn) custom = Some e →
                    w1 = with_console
                           (λ l, l ++ [("[useAudioVisualizer] Error connecting custom analyser:", e)]) w0).
Proof.
  intros Hi Hc. split; [|split].
  - intros e h1 w1 Hbody. rewrite (initialize_guarded _ _ _ Hi Hc), Hbody.
    split; [done|]. by rewrite (initialize_body_Raise _ _ _ _ _ _ Hbody).
  - intros h1 w1 Hbody. by rewrite (initialize_guarded _ _ _ Hi Hc), Hbody.
  - intros conn custom h0 w0. eexists. split;
      [apply connectCustomAnalyser_run|].
    intros e He. unfold hooked_up. by rewrite He.
Qed.

End Claims.

(** ** The frame loop *)

Lemma updateData_analyserRef s cb h w :
  analyserRef (updateData s cb h w).1 = analyserRef h.
Proof.
  unfold updateData, requestAnimationFrame.
  by destruct (analyserRef h) eqn:E.
Qed.

Lemma start_from_idle s cb st :
  idle st →
  let st' := loop_step (Start s cb) st in idle st' ∨ looping st'.
Proof.
  destruct st as [h w]. intros [Hp Hr]. cbn in *.
  unfold startVisualization, updateData, requestAnimationFrame.
  destruct (analyserRef h) as [a|] eqn:Ha; [|by left].
  right. exists (nextFrame w), cb. cbn. rewrite Hp, Ha. by eauto.
Qed.

Lemma frame_when_idle s st :
  idle st →
  let st' := loop_step (Frame s) st in idle st' ∧ invoked st'.2 = invoked st.2.
Proof.
  destruct st as [h w]. intros [Hp Hr]. cbn in *.
  unfold displayFrame. rewrite Hp. by cbn.
Qed.

Lemma frame_when_looping s st :
  looping st → looping (loop_step (Frame s) st).
Proof.
  destruct st as [h w]. intros (n & cb & Hp & Hr & [a Ha]). cbn in *.
  unfold displayFrame. rewrite Hp. cbn.
  unfold updateData, requestAnimationFrame. rewrite Ha.
  exists (nextFrame w), cb. cbn. rewrite Ha. by eauto.
Qed.

Lemma stop_when_idle st : idle st → idle (loop_step Stop st).
Proof.
  destruct st as [h w]. intros [Hp Hr]. cbn in *.
  unfold stopVisualization. by rewrite Hr.
Qed.

Lemma stop_when_looping st : looping st → idle (loop_step Stop st).
Proof.
  destruct st as [h w]. intros (n & cb & Hp & Hr & _). cbn in *.
  unfold stopVisualization. rewrite Hr. split; [|done]. cbn. rewrite Hp.
  cbn. by rewrite decide_False by (by intros ?).
Qed.

Lemma loop_run_cons op ops st :
  loop_run (op :: ops) st = loop_run ops (loop_step op st).
Proof. done. Qed.

Lemma loop_run_app ops1 ops2 st :
  loop_run (ops1 ++ ops2) st = loop_run ops2 (loop_run ops1 st).
Proof. apply foldl_app. Qed.

Lemma frames_keep (P : Hook * World → Prop) frames st :
  (∀ s st, P st → P (loop_step (Frame s) st)) →
  P st → P (loop_run (map Frame frames) st).
Proof.
  intros Hstep. revert st.
  induction frames as [|s frames IH]; intros st HP; [done|].
  cbn [map]. rewrite loop_run_cons. apply IH, Hstep, HP.
Qed.

Lemma cycle_returns_to_idle s cb frames st :
  idle st → idle (loop_run (cycle s cb frames) st).
Proof.
  intros Hidle. unfold cycle.
  rewrite loop_run_cons, loop_run_app, loop_run_cons.
  change (loop_run [] ?x) with x.
  destruct (start_from_idle s cb st Hidle) as [H|H].
  - apply stop_when_idle, frames_keep; [|done].
    intros s' st' Hst'. by apply frame_when_idle.
  - apply stop_when_looping, frames_keep; [|done].
    intros s' st' Hst'. by apply frame_when_looping.
Qed.

Lemma cycles_return_to_idle l st : idle st → idle (loop_run (cycles l) st).
Proof.
  revert st. induction l as [|[[s cb] frames] l IH]; intros st Hidle; [done|].
  cbn [cycles flat_map]. rewrite loop_run_app.
  apply IH. by apply cycle_returns_to_idle.
Qed.

Lemma idle_stays_silent frames st :
  idle st →
  idle (loop_run (map Frame frames) st)
  ∧ invoked (loop_run (map Frame frames) st).2 = invoked st.2.
Proof.
  revert st. induction frames as [|s frames IH]; intros st Hidle; [done|].
  cbn [map]. rewrite loop_run_cons.
  destruct (frame_when_idle s st Hidle) as [Hidle' Hinv].
  destruct (IH _ Hidle') as [? ->]. done.
Qed.

(** Claim C3, as amended.  Start/stop cycles that begin while no loop
    of the hook is running, with [stopVisualization] called between
    display frames: after any number of such cycles, each with any
    number of frames between its start and its stop (so a tick is
    pending when the stop arrives), no frame request is pending, the
    hook holds no handle, and however many frames the display delivers
    afterwards no callback is invoked. *)
Theorem stop_ends_the_loop (l : list (Signal * CallbackId * list Signal))
    (later : list Signal) h w :
  pendingFrames w = [] → animationFrameRef h = None →
  let st := loop_run (cycles l) (h, w) in
  pendingFrames st.2 = []
  ∧ animationFrameRef st.1 = None
  ∧ invoked (loop_run (map Frame later) st).2 = invoked st.2.
Proof.
  intros Hp Hr. cbn zeta.
  assert (Hidle : idle (loop_run (cycles l) (h, w)))
    by (by apply cycles_return_to_idle).
  destruct Hidle as [Hp' Hr']. repeat split; [done..|].
  by apply idle_stays_silent.
Qed.


(** ** Well-formedness and shared analysers along a run *)

Lemma wf_frame w w' :
  connections w' = connections w → edges w' = edges w →
  nextNode w ≤ nextNode w' → wf w → wf w'.
Proof.
  intros Hc He Hn [Hwc Hwe]. split.
  - intros c conn. rewrite Hc. intros Hl.
    eapply Forall_impl; [by eapply Hwc|]. cbn. lia.
  - rewrite He. eapply Forall_impl; [done|]. cbn. lia.
Qed.

Lemma shared_analyser_frame w w' a :
  connections w' = connections w → shared_analyser w' a → shared_analyser w a.
Proof. unfold shared_analyser. by intros ->. Qed.

Lemma wf_nodes w c conn n :
  wf w → connections w !! c = Some conn → n ∈ connection_nodes conn →
  n < nextNode w.
Proof.
  intros [Hwc _] Hl Hn. specialize (Hwc _ _ Hl).
  rewrite Forall_forall in Hwc. by apply Hwc.
Qed.

Lemma wf_shared w a : wf w → shared_analyser w a → a < nextNode w.
Proof.
  intros Hwf (c & conn & Hl & Ha). eapply wf_nodes; [done..|].
  unfold connection_nodes. rewrite Ha. cbn. set_solver.
Qed.

Lemma tapPoint_node conn : tapPoint conn ∈ connection_nodes conn.
Proof.
  unfold tapPoint, connection_nodes.
  destruct (filters conn) as [fs|]; cbn; [|set_solver].
  destruct (last fs) as [f|] eqn:Hl; cbn; [|set_solver].
  apply last_Some_elem_of in Hl. set_solver.
Qed.

Lemma wf_shared_installed w c :
  wf w → is_Some (connections w !! c) → wf (shared_installed c w).
Proof.
  intros Hwf [conn Hconn]. split; cbn.
  - intros c' conn'. rewrite lookup_insert. case_decide as Hc.
    + intros [= <-]. rewrite (lookup_total_correct _ _ _ Hconn).
      unfold connection_nodes. cbn.
      apply Forall_forall. intros n Hn.
      assert (n ∈ connection_nodes conn ∨ n = nextNode w) as [Hin| ->].
      { unfold connection_nodes.
        rewrite elem_of_cons, elem_of_app in Hn. cbn in Hn.
        rewrite list_elem_of_singleton in Hn.
        rewrite elem_of_cons, elem_of_app. tauto. }
      * pose proof (wf_nodes _ _ _ _ Hwf Hconn Hin). lia.
      * lia.
    + intros Hl. destruct Hwf as [Hwc _].
      eapply Forall_impl; [by eapply Hwc|]. cbn. lia.
  - destruct Hwf as [_ Hwe]. eapply Forall_impl; [done|]. cbn. lia.
Qed.

Lemma shared_analyser_installed w c a :
  shared_analyser (shared_installed c w) a →
  shared_analyser w a ∨ a = nextNode w.
Proof.
  intros (c' & conn' & Hl & Ha). cbn in Hl.
  rewrite lookup_insert in Hl. case_decide as Hc.
  - injection Hl as <-. cbn in Ha. right. congruence.
  - left. by exists c', conn'.
Qed.

Lemma nextNode_shared_world c w : nextNode w ≤ nextNode (shared_world c w).
Proof.
  unfold shared_world. destruct (analyser _); cbn; lia.
Qed.

Lemma wf_shared_world w c :
  wf w → is_Some (connections w !! c) → wf (shared_world c w).
Proof.
  intros Hwf Hc. unfold shared_world.
  destruct (analyser _); [done|]. by apply wf_shared_installed.
Qed.

(** After lines 57-63 every shared analyser lies below the counter. *)
Lemma shared_world_shared w c a :
  wf w → shared_analyser (shared_world c w) a →
  a < nextNode (shared_world c w).
Proof.
  intros Hwf. unfold shared_world. destruct (analyser _) eqn:Ha.
  - by apply wf_shared.
  - intros [Hs| ->]%shared_analyser_installed; cbn; [|lia].
    pose proof (wf_shared _ _ Hwf Hs). lia.
Qed.

Lemma shared_world_old w c a :
  a < nextNode w → ¬ shared_analyser w a →
  ¬ shared_analyser (shared_world c w) a.
Proof.
  intros Hlt Hns. unfold shared_world. destruct (analyser _); [done|].
  intros [Hs| ->]%shared_analyser_installed; [done|lia].
Qed.

Lemma connections_shared_world_nodes w c n :
  wf w → is_Some (connections w !! c) →
  n ∈ connection_nodes (connections (shared_world c w) !!! c) →
  n < nextNode (shared_world c w).
Proof.
  intros Hwf Hc Hn. pose proof (wf_shared_world _ _ Hwf Hc) as Hwf'.
  assert (is_Some (connections (shared_world c w) !! c)) as [conn' Hconn'].
  { unfold shared_world. destruct (analyser _); [done|]. cbn.
    rewrite lookup_insert_eq. by eexists. }
  rewrite (lookup_total_correct _ _ _ Hconn') in Hn.
  by eapply wf_nodes.
Qed.

Section Invariant.

Context {manager : AudioContextManager} `{!ManagerLaws manager}.
Variable hookupError : NodeId → NodeId → option Error.
Variable audioElement : option AudioElement.
Variable options : AudioVisualizerOptions.

Lemma private_tap_manager_step h w w' :
  manager_step w w' → private_tap h w → private_tap h w'.
Proof.
  intros [_ Hn Hs] Hp a Ha. destruct (Hp a Ha) as [Hlt Hns].
  split; [lia|]. intros Hsa. by apply Hns, Hs.
Qed.

Lemma hook_inv_manager_step h w w' :
  manager_step w w' → hook_inv (h, w) → hook_inv (h, w').
Proof.
  intros Hstep [Hwf Hp]. split; cbn in *.
  - by apply Hstep.
  - by eapply private_tap_manager_step.
Qed.

Lemma hook_inv_frame h w w' :
  connections w' = connections w → edges w' = edges w →
  nextNode w' = nextNode w → hook_inv (h, w) → hook_inv (h, w').
Proof.
  intros Hc He Hn [Hwf Hp]. split; cbn [fst snd] in *.
  - eapply (wf_frame w); [done..|lia|done].
  - intros a Ha. destruct (Hp a Ha) as [Hlt Hns]. split; [lia|].
    intros Hs. by eapply Hns, shared_analyser_frame.
Qed.

Lemma wf_hooked_up conn custom w :
  tapPoint conn < nextNode w → wf w → wf (hooked_up hookupError conn custom w).
Proof.
  intros Htap [Hwc Hwe]. unfold hooked_up.
  destruct (hookupError _ _); split; cbn; try done.
  apply Forall_app. split; [done|]. by apply Forall_singleton.
Qed.

(** The stage [initialize] hands to [ensureConnectionChain]. *)
Lemma wf_before_ensure w0 c :
  wf w0 → is_Some (connections w0 !! c) →
  let conn := connections w0 !!! c in
  let w1 := shared_world c w0 in
  wf (hooked_up hookupError conn (nextNode w1) (tapped options w1)).
Proof.
  intros Hwf [conn Hconn]. cbn zeta.
  rewrite (lookup_total_correct _ _ _ Hconn).
  apply wf_hooked_up.
  - cbn. pose proof (wf_nodes _ _ _ _ Hwf Hconn (tapPoint_node conn)).
    pose proof (nextNode_shared_world c w0). lia.
  - eapply (wf_frame (shared_world c w0)); cbn; [done..|lia|].
    apply wf_shared_world; eauto.
Qed.

Lemma initialize_inv st :
  hook_inv st →
  hook_inv (initialize hookupError audioElement options st.1 st.2).
Proof.
  destruct st as [h w]. intros Hinv. cbn [fst snd].
  destruct (initialize_cases audioElement h) as [Hn|(el & -> & Hi & Hc)].
  { by rewrite (initialize_unguarded _ _ _ _ _ Hn). }
  rewrite (initialize_guarded _ _ _ _ _ Hi Hc), initialize_body_run.
  pose proof (acquire_step el w) as Hstep.
  pose proof (acquire_live el w) as Hlive.
  destruct (getOrCreateAudioConnection el w) as [[c|] w0|e0 w0];
    cbn in Hstep;
    [|by eapply hook_inv_manager_step
     |eapply hook_inv_frame; [..|by eapply hook_inv_manager_step]; done].
  specialize (Hlive c w0 eq_refl).
  apply (hook_inv_manager_step _ _ _ Hstep) in Hinv.
  destruct Hinv as [Hwf0 Hp0]. cbn [fst snd] in *.
  set (w1 := shared_world c w0).
  assert (Hp1 : private_tap h w1).
  { intros a Ha. destruct (Hp0 a Ha) as [Hlt Hns]. split.
    - pose proof (nextNode_shared_world c w0). unfold w1. lia.
    - by apply shared_world_old. }
  assert (Hwf1 : wf w1) by (by apply wf_shared_world).
  cbn zeta.
  destruct (valid_fftSize _).
  2:{ split; cbn [fst snd].
      - eapply (wf_frame w1); cbn; [done..|lia|done].
      - intros a Ha. destruct (Hp1 a Ha) as [Hlt Hns]. split; [cbn; lia|].
        intros Hs. by apply Hns. }
  destruct (valid_smoothingTimeConstant _).
  2:{ split; cbn [fst snd].
      - eapply (wf_frame w1); cbn; [done..|lia|done].
      - intros a Ha. destruct (Hp1 a Ha) as [Hlt Hns]. split; [cbn; lia|].
        intros Hs. by apply Hns. }
  fold w1. set (conn := connections w0 !!! c).
  set (w2 := hooked_up hookupError conn (nextNode w1) (tapped options w1)).
  assert (Hwf2 : wf w2) by (by apply wf_before_ensure).
  assert (Hn2 : nextNode w2 = S (nextNode w1)).
  { unfold w2, hooked_up. by destruct (hookupError _ _). }
  assert (Hs2 : ∀ a, shared_analyser w2 a → a < nextNode w1).
  { intros a Hs. apply shared_world_shared; [done|].
    revert Hs. apply shared_analyser_frame.
    unfold w2, hooked_up. by destruct (hookupError _ _). }
  pose proof (ensure_step c w2) as Hens.
  assert (Hfin : ∀ h3 w3, manager_step w2 w3 →
                          analyserRef h3 = Some (nextNode w1) →
                          hook_inv (h3, w3)).
  { intros h3 w3 [Hw Hn Hs] Ha3. split; cbn [fst snd]; [by apply Hw|].
    intros a Ha. replace a with (nextNode w1) by congruence.
    split; [lia|]. intros Hsa%Hs%Hs2. lia. }
  destruct (ensureConnectionChain c w2) as [[] w3|e3 w3]; cbn in Hens.
  - by apply Hfin.
  - destruct (Hfin (refs_set conn (nextNode w1) h) w3 Hens eq_refl)
      as [Hwf3 Hp3].
    split; cbn [fst snd]; [|done].
    eapply (wf_frame w3); cbn; [done..|lia|done].
Qed.


Lemma stopVisualization_inv st :
  hook_inv st → hook_inv (stopVisualization st.1 st.2).
Proof.
  destruct st as [h w]. intros Hinv. cbn [fst snd].
  unfold stopVisualization. destruct (animationFrameRef h); [|done].
  destruct Hinv as [Hwf Hp]. split; cbn [fst snd] in *.
  - by eapply (wf_frame w).
  - intros a Ha. destruct (Hp a Ha) as [Hlt Hns]. by split.
Qed.

Lemma updateData_inv s cb st :
  hook_inv st → hook_inv (updateData s cb st.1 st.2).
Proof.
  destruct st as [h w]. intros Hinv. cbn [fst snd].
  unfold updateData, requestAnimationFrame.
  destruct (analyserRef h) eqn:Ha; [|done].
  destruct Hinv as [Hwf Hp]. split; cbn [fst snd] in *.
  - by eapply (wf_frame w).
  - intros a' Ha'. destruct (Hp a' Ha') as [Hlt Hns]. by split.
Qed.

Lemma displayFrame_inv s st :
  hook_inv st → hook_inv (displayFrame s st.1 st.2).
Proof.
  destruct st as [h w]. intros Hinv. cbn [fst snd]. unfold displayFrame.
  assert (Hstart : hook_inv (h, with_frames [] (nextFrame w) w))
    by (eapply hook_inv_frame; [..|exact Hinv]; done).
  revert Hstart. generalize (h, with_frames [] (nextFrame w) w).
  induction (pendingFrames w) as [|p ps IH]; intros st Hst; [done|].
  cbn. apply IH. by apply (updateData_inv s p.2 st).
Qed.

Lemma loop_step_inv op st : hook_inv st → hook_inv (loop_step op st).
Proof.
  destruct op as [s cb| |s]; cbn.
  - intros Hinv. unfold startVisualization.
    destruct (analyserRef st.1); [by apply updateData_inv|by destruct st].
  - apply stopVisualization_inv.
  - apply displayFrame_inv.
Qed.

Lemma cleanup_inv st :
  hook_inv st → hook_inv (settle (cleanup audioElement st.1 st.2)).
Proof.
  intros Hinv%stopVisualization_inv. unfold cleanup, bind.
  destruct (stopVisualization st.1 st.2) as [h1 w1]. cbn [fst snd] in *.
  assert (Hclear : ∀ w2, wf w2 →
            hook_inv (setIsInitialized false
                        (set_sourceRef None
                           (set_analyserRef None
                              (set_audioContextRef None h1))), w2)).
  { intros w2 Hwf2. by split. }
  destruct audioElement as [el|]; cbn.
  - pose proof (release_step el w1) as Hstep. unfold call.
    destruct (releaseAudioConnection el w1) as [[] w2|e w2]; cbn in *.
    + apply Hclear. by apply Hstep, Hinv.
    + by eapply hook_inv_manager_step.
  - apply Hclear, Hinv.
Qed.

Lemma hook_step_inv op st :
  hook_inv st → hook_inv (hook_step hookupError audioElement options op st).
Proof.
  destruct op as [| |op]; cbn.
  - apply initialize_inv.
  - apply cleanup_inv.
  - apply loop_step_inv.
Qed.

Lemma hook_run_inv ops st :
  hook_inv st → hook_inv (hook_run hookupError audioElement options ops st).
Proof.
  revert st. induction ops as [|op ops IH]; intros st Hinv; [done|].
  cbn. apply IH. by apply hook_step_inv.
Qed.

(** The sampling paths consult the signal at [analyserRef] only. *)
Lemma sampling_reads_analyserRef s1 s2 h w :
  (∀ a k, analyserRef h = Some a →
          byteFrequency s1 a k = byteFrequency s2 a k
          ∧ byteTimeDomain s1 a k = byteTimeDomain s2 a k) →
  getFrequencyData s1 h w = getFrequencyData s2 h w
  ∧ getTimeDomainData s1 h w = getTimeDomainData s2 h w.
Proof.
  intros Hsame. unfold getFrequencyData, getTimeDomainData,
    getByteFrequencyData, getByteTimeDomainData.
  destruct (analyserRef h) as [a|]; [|done].
  split; apply imap_ext; intros k b _; case_bool_decide; try done;
    by destruct (Hsame a k eq_refl).
Qed.

(** Claim C7.  In every state the hook reaches from its mount (any
    sequence of [initialize], cleanup, loop starts, stops and display
    frames), the node in [analyserRef] is not the shared analyser of
    any connection, and [getFrequencyData] and [getTimeDomainData]
    return the same bytes whatever the shared analysers report: the
    sampling paths read the per-instance custom analyser only. *)
Theorem sampling_reads_private_tap ops w s1 s2 :
  wf w →
  let st := hook_run hookupError audioElement options ops (mount, w) in
  private_tap st.1 st.2
  ∧ (same_off_shared st.2 s1 s2 →
     getFrequencyData s1 st.1 st.2 = getFrequencyData s2 st.1 st.2
     ∧ getTimeDomainData s1 st.1 st.2 = getTimeDomainData s2 st.1 st.2).
Proof.
  intros Hwf. cbn zeta.
  assert (Hinv : hook_inv
            (hook_run hookupError audioElement options ops (mount, w))).
  { apply hook_run_inv. by split. }
  destruct Hinv as [_ Hp]. split; [done|].
  intros Hsame. apply sampling_reads_analyserRef.
  intros a k Ha. apply Hsame. by apply Hp.
Qed.

(** Claim C6.  When [initialize] creates the tap, it obtained a
    connection and hooked the custom analyser onto the last filter of
    the chain when there are filters, onto the source node otherwise:
    that one link (none when the hookup threw) is all it adds to the
    graph it then hands to [ensureConnectionChain], so every link that
    carried the audible signal is still there; and in the final graph
    no link leaves the custom analyser, to the destination or to any
    other node. *)
Theorem tap_is_parallel h w h' w' custom :
  wf w → analyserRef h = None →
  initialize hookupError audioElement options h w = (h', w') →
  analyserRef h' = Some custom →
  ∃ el c w0,
    audioElement = Some el
    ∧ getOrCreateAudioConnection el w = Returns (Some c) w0
    ∧ let conn := connections w0 !!! c in
      let tap := tapPoint conn in
      let w1 := tapped options (shared_world c w0) in
      let w2 := hooked_up hookupError conn custom w1 in
      edges w1 = edges w0
      ∧ edges w2 = edges w0 ++ match hookupError tap custom with
                               | None => [(tap, custom)]
                               | Some _ => []
                               end
      ∧ edges w' = edges (world_of (ensureConnectionChain c w2))
      ∧ ∀ y, (custom, y) ∉ edges w'.
Proof.
  intros Hwf Hnone Hrun Hcustom.
  destruct (initialize_cases audioElement h) as [Hn|(el & -> & Hi & Hc)].
  { rewrite (initialize_unguarded _ _ _ _ _ Hn) in Hrun. congruence. }
  rewrite (initialize_guarded _ _ _ _ _ Hi Hc), initialize_body_run in Hrun.
  pose proof (acquire_step el w) as Hstep.
  pose proof (acquire_live el w) as Hlive.
  destruct (getOrCreateAudioConnection el w) as [[c|] w0|e0 w0] eqn:Hacq;
    cbn in Hstep; [|injection Hrun as <- _; congruence..].
  destruct (Hlive c w0 eq_refl) as [conn Hconn].
  assert (Hwf0 : wf w0) by (by apply Hstep).
  cbn zeta in Hrun.
  destruct (valid_fftSize _); [|injection Hrun as <- _; congruence].
  destruct (valid_smoothingTimeConstant _);
    [|injection Hrun as <- _; congruence].
  set (w1 := shared_world c w0) in *.
  assert (Hedges1 : edges (tapped options w1) = edges w0).
  { unfold w1, shared_world. destruct (analyser _); reflexivity. }
  assert (custom = nextNode w1 ∧
          edges w' = edges (world_of (ensureConnectionChain c
                       (hooked_up hookupError (connections w0 !!! c)
                          (nextNode w1) (tapped options w1)))))
    as [-> Hedges'].
  { destruct (ensureConnectionChain _ _) as [[] w3|e3 w3];
      injection Hrun as <- <-; cbn in *; split; congruence. }
  exists el, c, w0. split; [done|]. split; [done|]. cbn zeta.
  set (tap := tapPoint (connections w0 !!! c)).
  set (w2 := hooked_up _ _ _ _) in *.
  assert (Hedges2 : edges w2 = edges w0 ++
            match hookupError tap (nextNode w1) with
            | None => [(tap, nextNode w1)]
            | Some _ => []
            end).
  { rewrite <- Hedges1. unfold w2, hooked_up. fold tap.
    destruct (hookupError _ _); [rewrite app_nil_r|]; reflexivity. }
  split; [done|]. split; [done|]. split; [done|].
  intros y Hy. rewrite Hedges' in Hy.
  pose proof (nextNode_shared_world c w0) as Hmono. fold w1 in Hmono.
  apply ensure_edges in Hy as [Hy|Hy].
  - rewrite Hedges2, elem_of_app in Hy. destruct Hy as [Hy|Hy].
    + destruct Hwf0 as [_ Hwe]. rewrite Forall_forall in Hwe.
      specialize (Hwe _ Hy). cbn in Hwe. lia.
    + destruct (hookupError _ _); [by apply elem_of_nil in Hy|].
      apply list_elem_of_singleton in Hy. injection Hy as Htap _.
      pose proof (tapPoint_node (connections w0 !!! c)) as Hnode.
      rewrite (lookup_total_correct _ _ _ Hconn) in Hnode.
      pose proof (wf_nodes _ _ _ _ Hwf0 Hconn Hnode) as Hlt.
      unfold tap in Htap. rewrite (lookup_total_correct _ _ _ Hconn) in Htap.
      lia.
  - assert (connections w2 = connections w1) as Hcs.
    { unfold w2, hooked_up. by destruct (hookupError _ _). }
    rewrite Hcs in Hy.
    apply connections_shared_world_nodes in Hy; [|done|by eexists].
    fold w1 in Hy. lia.
Qed.

End Invariant.

(** ** The manager modelled from the spec keeps the laws *)

Lemma manager_step_refl w : manager_step w w.
Proof. by split. Qed.

Lemma acquire_is_step el w :
  manager_step w (world_of (SpecManager.acquire el w)).
Proof.
  unfold SpecManager.acquire. case_bool_decide; [apply manager_step_refl|].
  destruct (connections w !! el) as [conn|] eqn:Hconn; cbn [world_of].
  - split; cbn; [|lia|].
    + intros [Hwc Hwe]. split; cbn; [|done].
      intros c conn'. rewrite lookup_insert. case_decide as Hc.
      * intros [= <-]. by apply (Hwc el conn).
      * apply Hwc.
    + intros a (c & conn' & Hl & Ha). cbn in Hl.
      rewrite lookup_insert in Hl. case_decide as Hc.
      * injection Hl as <-. by exists el, conn.
      * by exists c, conn'.
  - split; cbn; [|lia|].
    + intros [Hwc Hwe]. split; cbn.
      * intros c conn'. rewrite lookup_insert. case_decide as Hc.
        -- intros [= <-]. unfold connection_nodes. cbn.
           apply Forall_singleton. lia.
        -- intros Hl. eapply Forall_impl; [by eapply Hwc|]. cbn. lia.
      * eapply Forall_impl; [done|]. cbn. lia.
    + intros a (c & conn' & Hl & Ha). cbn in Hl.
      rewrite lookup_insert in Hl. case_decide as Hc.
      * by injection Hl as <-.
      * by exists c, conn'.
Qed.

Lemma acquire_is_live el w c w' :
  SpecManager.acquire el w = Returns (Some c) w' →
  is_Some (connections w' !! c).
Proof.
  unfold SpecManager.acquire. case_bool_decide; [done|].
  destruct (connections w !! el) as [conn|];
    intros [= <- <-]; cbn; rewrite lookup_insert_eq; by eexists.
Qed.

Lemma release_is_step el w :
  manager_step w (world_of (SpecManager.release el w)).
Proof.
  unfold SpecManager.release.
  destruct (connections w !! el) as [conn|] eqn:Hconn;
    [|apply manager_step_refl].
  case_bool_decide; cbn [world_of].
  - split; cbn; [|lia|].
    + intros [Hwc Hwe]. split; cbn.
      * intros c conn'. rewrite lookup_delete. case_decide; [done|].
        apply Hwc.
      * rewrite Forall_forall in Hwe. apply Forall_forall.
        intros e [_ He]%list_elem_of_filter. by apply Hwe.
    + intros a (c & conn' & Hl & Ha). cbn in Hl.
      rewrite lookup_delete in Hl. case_decide; [done|]. by exists c, conn'.
  - split; cbn; [|lia|].
    + intros [Hwc Hwe]. split; cbn; [|done].
      intros c conn'. rewrite lookup_insert. case_decide as Hc.
      * intros [= <-]. by apply (Hwc el conn).
      * apply Hwc.
    + intros a (c & conn' & Hl & Ha). cbn in Hl.
      rewrite lookup_insert in Hl. case_decide as Hc.
      * injection Hl as <-. by exists el, conn.
      * by exists c, conn'.
Qed.

(** Completing the chain adds links of the chain, nothing else. *)
Lemma link_all_elem (links es : list (NodeId * NodeId)) e :
  e ∈ foldl (λ es e, if bool_decide (e ∈ es) then es else es ++ [e]) es links →
  e ∈ es ∨ e ∈ links.
Proof.
  revert es. induction links as [|l links IH]; intros es; cbn; [by left|].
  intros [Hin|Hin]%IH; [|right; by right].
  case_bool_decide; [by left|].
  apply elem_of_app in Hin as [Hin|Hin%list_elem_of_singleton]; [by left|].
  right. subst. by left.
Qed.

Lemma chain_starts conn dest x y :
  (x, y) ∈ SpecManager.chain conn dest → x ∈ connection_nodes conn.
Proof.
  unfold SpecManager.chain, connection_nodes.
  intros Hin%elem_of_zip_l. cbn in Hin.
  rewrite app_comm_cons. apply elem_of_app. by left.
Qed.

Lemma ensure_is_step c w :
  manager_step w (world_of (SpecManager.ensureChainComplete c w)).
Proof.
  unfold SpecManager.ensureChainComplete.
  destruct (connections w !! c) as [conn|] eqn:Hconn;
    [|apply manager_step_refl].
  cbn [world_of]. split; cbn; [|lia|done].
  intros Hwf. split; cbn; [apply Hwf|].
  apply Forall_forall. intros [x y] [Hin|Hin]%link_all_elem.
  - destruct Hwf as [_ Hwe]. rewrite Forall_forall in Hwe. by apply Hwe.
  - cbn. eapply wf_nodes; [done..|]. by eapply chain_starts.
Qed.

Lemma ensure_keeps_analysers c w :
  analysers (world_of (SpecManager.ensureChainComplete c w)) = analysers w.
Proof.
  unfold SpecManager.ensureChainComplete. by destruct (connections w !! c).
Qed.

Lemma ensure_adds_chain_links c w x y :
  (x, y) ∈ edges (world_of (SpecManager.ensureChainComplete c w)) →
  (x, y) ∈ edges w ∨ x ∈ connection_nodes (connections w !!! c).
Proof.
  unfold SpecManager.ensureChainComplete.
  destruct (connections w !! c) as [conn|] eqn:Hconn; [|by left].
  cbn. intros [Hin|Hin]%link_all_elem; [by left|right].
  rewrite (lookup_total_correct _ _ _ Hconn). by eapply chain_starts.
Qed.

Lemma SpecManager_laws : ManagerLaws SpecManager.manager.
Proof.
  split; cbn.
  - apply acquire_is_step.
  - apply acquire_is_live.
  - apply release_is_step.
  - apply ensure_is_step.
  - apply ensure_keeps_analysers.
  - apply ensure_adds_chain_links.
Qed.

Lemma wf_page : wf Sample.page.
Proof.
  split; cbn; [|done]. intros c conn Hl. by rewrite lookup_empty in Hl.
Qed.

Lemma wf_page_with_equalizer : wf Sample.page_with_equalizer.
Proof.
  split; cbn.
  - intros c conn [<- <-]%lookup_singleton_Some. unfold connection_nodes. cbn.
    repeat constructor.
  - repeat constructor.
Qed.

(** ** The buffer [initialize] allocates *)

Section Buffer.

Context {manager : AudioContextManager}.
Variable hookupError : NodeId → NodeId → option Error.
Variable options : AudioVisualizerOptions.

(** A successful [initialize] sizes [frequencyData] by the connection's
    shared analyser (the [analyser] of line 97), not by the custom one. *)
Lemma buffer_follows_shared_analyser audioElement h w h' w' :
  isInitialized h = false →
  initialize hookupError audioElement options h w = (h', w') →
  isInitialized h' = true →
  ∃ el c w0,
    audioElement = Some el
    ∧ getOrCreateAudioConnection el w = Returns (Some c) w0
    ∧ length (frequencyData h')
      = Z.to_nat (frequencyBinCount (analysers w' !!! shared_of c w0)).
Proof.
  intros Hi Hrun Hi'.
  destruct (initialize_cases audioElement h) as [Hn|(el & -> & _ & Hc)].
  { rewrite (initialize_unguarded _ _ _ _ _ Hn) in Hrun. congruence. }
  rewrite (initialize_guarded _ _ _ _ _ Hi Hc), initialize_body_run in Hrun.
  destruct (getOrCreateAudioConnection el w) as [[c|] w0|e0 w0] eqn:Hacq;
    [|injection Hrun as <- _; congruence..].
  cbn zeta in Hrun.
  destruct (valid_fftSize _); [|injection Hrun as <- _; congruence].
  destruct (valid_smoothingTimeConstant _);
    [|injection Hrun as <- _; congruence].
  destruct (ensureConnectionChain _ _) as [[] w3|e3 w3];
    injection Hrun as <- <-; [|cbn in Hi'; congruence].
  exists el, c, w0. split; [done|]. split; [done|].
  cbn. apply length_Uint8Array.
Qed.

End Buffer.

(** Claim C1, which the code breaks.  With every option left to its
    default on a fresh connection, [initialize] succeeds and the custom
    analyser (node 3) has 64 frequency bins, the length of the arrays
    [getFrequencyData] returns; but the buffer stored in
    [frequencyData] has 1024 bytes, the bin count of the connection's
    shared analyser that line 97 reads. *)
Theorem default_buffer_has_1024_bytes :
  isInitialized Sample.playing.1 = true
  ∧ analyserRef Sample.playing.1 = Some 3
  ∧ frequencyBinCount (analysers Sample.playing.2 !!! 3) = 64%Z
  ∧ length (getFrequencyData Sample.silence Sample.playing.1 Sample.playing.2)
    = 64
  ∧ length (frequencyData Sample.playing.1) = 1024.
Proof. vm_compute. repeat split. Qed.

(** ** Where two claims fail as stated *)

(** Against claim C3 as stated: two loops are started without a stop in
    between; [stopVisualization] cancels the tick of the second only,
    the tick of the first (handle 1, callback 1) stays pending, and the
    next display frame invokes callback 1. *)
Lemma overlapping_loops_survive_stop :
  let st := loop_run [Start Sample.silence 1; Start Sample.silence 2; Stop]
              Sample.playing in
  pendingFrames st.2 = [(1, 1)]
  ∧ map fst (invoked (loop_run [Frame Sample.silence] st).2)
    = map fst (invoked st.2) ++ [1].
Proof. vm_compute. done. Qed.

(** Against claim C5 as stated: on a platform where [connect] throws,
    the exception raised while connecting the custom analyser is caught
    and logged, yet [initialize] goes on and [isInitialized] ends up
    true. *)
Lemma hookup_failure_still_initializes :
  let r := initialize (manager := SpecManager.manager) Sample.hookup_broken
             (Some 7) Sample.no_options mount Sample.page_with_equalizer in
  Sample.hookup_broken 3 5 = Some InvalidAccessError
  ∧ console r.2 = [("[useAudioVisualizer] Error connecting custom analyser:",
                    InvalidAccessError)]
  ∧ isInitialized mount = false
  ∧ isInitialized r.1 = true.
Proof. vm_compute. done. Qed.

(** ** The theorems at concrete inputs *)

Lemma surjective_run (st : Hook * World) : st = (st.1, st.2).
Proof. by destruct st. Defined.

Lemma initialize_noop_witness :
  (isInitialized Sample.playing.1 = true ∨ Some 7 = None)
  ∧ initialize (manager := SpecManager.manager) Sample.hookup_fine (Some 7)
      Sample.no_options Sample.playing.1 Sample.playing.2
    = (Sample.playing.1, Sample.playing.2).
Proof.
  split; [left; vm_compute; reflexivity|].
  apply (initialize_noop (manager := SpecManager.manager)).
  left. vm_compute. reflexivity.
Defined.

Lemma initialize_unavailable_skips_witness :
  isInitialized mount = false
  ∧ audioContextRef mount = None
  ∧ SpecManager.acquire 7 Sample.page_bound_elsewhere
    = Returns None Sample.page_bound_elsewhere
  ∧ let r := initialize (manager := SpecManager.manager) Sample.hookup_fine
               (Some 7) Sample.no_options mount Sample.page_bound_elsewhere in
    r = (mount, Sample.page_bound_elsewhere)
    ∧ isInitialized r.1 = false
    ∧ analyserRef r.1 = analyserRef mount
    ∧ frequencyData r.1 = frequencyData mount
    ∧ analysers r.2 = analysers Sample.page_bound_elsewhere
    ∧ nextNode r.2 = nextNode Sample.page_bound_elsewhere
    ∧ console r.2 = console Sample.page_bound_elsewhere.
Proof.
  split; [reflexivity|]. split; [reflexivity|].
  split; [vm_compute; reflexivity|].
  apply (initialize_unavailable_skips (manager := SpecManager.manager));
    [reflexivity|reflexivity|vm_compute; reflexivity].
Defined.

Lemma sample_arrays_witness :
  (getFrequencyData Sample.silence mount Sample.page = []
   ∧ getTimeDomainData Sample.silence mount Sample.page = [])
  ∧ (length (getFrequencyData Sample.silence Sample.playing.1 Sample.playing.2)
     = Z.to_nat (frequencyBinCount (configured Sample.no_options))
     ∧ length (getTimeDomainData Sample.silence Sample.playing.1
                 Sample.playing.2)
       = Z.to_nat (frequencyBinCount (configured Sample.no_options))).
Proof.
  destruct (sample_arrays (manager := SpecManager.manager)
              (ManagerLaws0 := SpecManager_laws)
              Sample.hookup_fine Sample.no_options (Some 7) Sample.silence)
    as (Hbefore & Hafter & _).
  split; [apply Hbefore; reflexivity|].
  apply (Hafter mount Sample.page);
    [reflexivity|apply surjective_run|vm_compute; reflexivity].
Defined.

Lemma custom_analyser_configured_witness :
  analyserRef mount = None
  ∧ analyserRef Sample.playing.1 = Some 3
  ∧ analysers Sample.playing.2 !! 3
    = Some {| fftSize := 128; smoothingTimeConstant := 0.8;
              minDecibels := -90; maxDecibels := -10 |}.
Proof.
  split; [reflexivity|]. split; [vm_compute; reflexivity|].
  apply (custom_analyser_configured (manager := SpecManager.manager)
           (ManagerLaws0 := SpecManager_laws)
           Sample.hookup_fine Sample.no_options (Some 7) mount Sample.page
           Sample.playing.1 Sample.playing.2 3);
    [reflexivity|apply surjective_run|vm_compute; reflexivity].
Defined.

Lemma getters_fall_back_witness :
  getSampleRate Sample.playing.1 Sample.playing.2 = 48000%Z
  ∧ ∃ h' w',
      cleanup (manager := SpecManager.manager) (Some 7)
        Sample.playing.1 Sample.playing.2 = Ok tt h' w'
      ∧ getSampleRate h' w' = 44100%Z
      ∧ getFFTSize Sample.no_options h' w' = 128%Z.
Proof.
  split; [vm_compute; reflexivity|].
  destruct (cleanup (manager := SpecManager.manager) (Some 7)
              Sample.playing.1 Sample.playing.2) as [[] h' w'|e h' w'] eqn:Hrun.
  - exists h', w'. split; [reflexivity|].
    exact (proj2 (getters_fall_back (manager := SpecManager.manager)
                    Sample.no_options (Some 7)) _ _ _ _ Hrun).
  - vm_compute in Hrun. discriminate Hrun.
Defined.

Lemma initialize_catches_everything_witness :
  isInitialized mount = false
  ∧ audioContextRef mount = None
  ∧ let r := initialize (manager := SpecManager.manager) Sample.hookup_fine
               (Some 7) Sample.odd_options mount Sample.page in
    isInitialized r.1 = false
    ∧ last (console r.2)
      = Some ("Failed to initialize audio visualizer:", IndexSizeError).
Proof.
  split; [reflexivity|]. split; [reflexivity|]. cbn zeta.
  destruct (initialize_catches_everything (manager := SpecManager.manager)
              Sample.hookup_fine Sample.odd_options 7 mount Sample.page
              eq_refl eq_refl) as (Hraise & _ & _).
  destruct (initialize_body (manager := SpecManager.manager)
              Sample.hookup_fine Sample.odd_options 7 mount Sample.page)
    as [[] h1 w1|e h1 w1] eqn:Hbody.
  - vm_compute in Hbody. discriminate Hbody.
  - destruct (Hraise e h1 w1 eq_refl) as [-> Hfalse].
    split; [exact Hfalse|].
    assert (e = IndexSizeError) as ->
      by (vm_compute in Hbody; congruence).
    cbn. apply last_snoc.
Defined.

Lemma stop_ends_the_loop_witness :
  pendingFrames Sample.playing.2 = []
  ∧ animationFrameRef Sample.playing.1 = None
  ∧ let st := loop_run
                (cycles [(Sample.silence, 1, [Sample.silence; Sample.hum]);
                         (Sample.hum, 2, [])])
                (Sample.playing.1, Sample.playing.2) in
    pendingFrames st.2 = []
    ∧ animationFrameRef st.1 = None
    ∧ invoked (loop_run (map Frame [Sample.silence; Sample.silence]) st).2
      = invoked st.2.
Proof.
  split; [vm_compute; reflexivity|]. split; [vm_compute; reflexivity|].
  apply stop_ends_the_loop; vm_compute; reflexivity.
Defined.

Lemma tap_is_parallel_witness :
  let r := initialize (manager := SpecManager.manager) Sample.hookup_fine
             (Some 7) Sample.no_options mount Sample.page_with_equalizer in
  wf Sample.page_with_equalizer
  ∧ analyserRef mount = None
  ∧ analyserRef r.1 = Some 5
  ∧ edges r.2 = [(1, 2); (2, 3); (3, 0); (3, 5)]
  ∧ ∀ y, (5, y) ∉ edges r.2.
Proof.
  cbn zeta. split; [apply wf_page_with_equalizer|]. split; [reflexivity|].
  split; [vm_compute; reflexivity|]. split; [vm_compute; reflexivity|].
  destruct (tap_is_parallel (manager := SpecManager.manager)
              (ManagerLaws0 := SpecManager_laws)
              Sample.hookup_fine (Some 7) Sample.no_options
              mount Sample.page_with_equalizer _ _ 5
              wf_page_with_equalizer eq_refl (surjective_run _))
    as (el & c & w0 & _ & _ & _ & _ & _ & Hout);
    [vm_compute; reflexivity|exact Hout].
Defined.

Lemma shared_analyser_of_playing :
  ∀ ops,
    ops = [Initialize; Loop (Start Sample.silence 1); Loop (Frame Sample.hum)] →
    shared_analyser
      (hook_run (manager := SpecManager.manager) Sample.hookup_fine (Some 7)
         Sample.no_options ops (mount, Sample.page)).2 2.
Proof.
  intros ops ->. exists 7.
  eexists. split; [vm_compute; reflexivity|reflexivity].
Defined.

Lemma sampling_reads_private_tap_witness :
  let st := hook_run (manager := SpecManager.manager) Sample.hookup_fine
              (Some 7) Sample.no_options
              [Initialize; Loop (Start Sample.silence 1);
               Loop (Frame Sample.hum)] (mount, Sample.page) in
  wf Sample.page
  ∧ analyserRef st.1 = Some 3
  ∧ private_tap st.1 st.2
  ∧ getFrequencyData Sample.silence st.1 st.2
    = getFrequencyData Sample.hum st.1 st.2
  ∧ getTimeDomainData Sample.silence st.1 st.2
    = getTimeDomainData Sample.hum st.1 st.2.
Proof.
  cbn zeta. split; [apply wf_page|]. split; [vm_compute; reflexivity|].
  destruct (sampling_reads_private_tap (manager := SpecManager.manager)
              (ManagerLaws0 := SpecManager_laws)
              Sample.hookup_fine (Some 7) Sample.no_options
              [Initialize; Loop (Start Sample.silence 1);
               Loop (Frame Sample.hum)]
              Sample.page Sample.silence Sample.hum wf_page)
    as [Hprivate Hsame].
  split; [exact Hprivate|]. apply Hsame.
  intros a k Hnot. unfold Sample.silence, Sample.hum. cbn.
  case_bool_decide as Ha; [|done]. subst a.
  destruct Hnot. by apply shared_analyser_of_playing.
Defined.

(** * Further properties of the hook *)

(** ** The loop, tick by tick *)

Lemma getFrequencyData_ext s h1 w1 h2 w2 :
  analyserRef h1 = analyserRef h2 → analysers w1 = analysers w2 →
  getFrequencyData s h1 w1 = getFrequencyData s h2 w2.
Proof.
  intros Hr Ha. unfold getFrequencyData, getByteFrequencyData.
  by rewrite Hr, Ha.
Qed.

Lemma updateData_tick s cb h w a :
  analyserRef h = Some a →
  let st := updateData s cb h w in
  analyserRef st.1 = analyserRef h
  ∧ analysers st.2 = analysers w
  ∧ pendingFrames st.2 = pendingFrames w ++ [(nextFrame w, cb)]
  ∧ animationFrameRef st.1 = Some (nextFrame w)
  ∧ invoked st.2 = invoked w ++ [(cb, getFrequencyData s h w)].
Proof.
  intros Ha. unfold updateData, requestAnimationFrame. by rewrite Ha.
Qed.

Lemma frames_tick cb h0 w0 fs st :
  is_Some (analyserRef h0) → ticking cb h0 w0 st →
  let st' := loop_run (map Frame fs) st in
  ticking cb h0 w0 st'
  ∧ invoked st'.2
    = invoked st.2 ++ map (λ s, (cb, getFrequencyData s h0 w0)) fs.
Proof.
  intros [a Ha]. revert st.
  induction fs as [|s fs IH]; intros st Htick; cbn zeta.
  { split; [done|]. cbn. by rewrite app_nil_r. }
  cbn [map]. rewrite loop_run_cons.
  destruct st as [h w]. destruct Htick as (Hr & Han & hd & Hp & Hf).
  cbn [fst snd] in *.
  assert (Ha' : analyserRef h = Some a) by congruence.
  assert (Hstep : loop_step (Frame s) (h, w)
                  = updateData s cb h (with_frames [] (nextFrame w) w)).
  { cbn. unfold displayFrame. by rewrite Hp. }
  rewrite Hstep.
  destruct (updateData_tick s cb h (with_frames [] (nextFrame w) w) a Ha')
    as (Hr1 & Han1 & Hp1 & Hf1 & Hi1).
  destruct (IH (updateData s cb h (with_frames [] (nextFrame w) w)))
    as [Htick' Hinv'].
  { split; [congruence|]. split; [by rewrite Han1|].
    exists (nextFrame w). by rewrite Hp1, Hf1. }
  split; [done|]. rewrite Hinv', Hi1. cbn [invoked with_frames map].
  rewrite <- app_assoc. cbn. do 3 f_equal.
  apply getFrequencyData_ext; [done|]. by rewrite <- Han.
Qed.

(** X1.  A loop started while nothing is pending and an analyser
    exists invokes its callback once at once and once per display
    frame, each time with the bytes [getFrequencyData] returns at that
    moment, and keeps exactly one tick pending, whose handle the hook
    holds. *)
Theorem loop_invokes_once_per_tick s cb fs h w :
  pendingFrames w = [] → is_Some (analyserRef h) →
  let st := loop_run (Start s cb :: map Frame fs) (h, w) in
  invoked st.2
  = invoked w ++ map (λ s', (cb, getFrequencyData s' h w)) (s :: fs)
  ∧ ∃ handle, pendingFrames st.2 = [(handle, cb)]
              ∧ animationFrameRef st.1 = Some handle.
Proof.
  intros Hp [a Ha]. cbn zeta. rewrite loop_run_cons.
  assert (Hstart : loop_step (Start s cb) (h, w) = updateData s cb h w).
  { cbn. unfold startVisualization. by rewrite Ha. }
  rewrite Hstart.
  destruct (updateData_tick s cb h w a Ha) as (Hr1 & Han1 & Hp1 & Hf1 & Hi1).
  destruct (frames_tick cb h w fs (updateData s cb h w)) as [Htick Hinv].
  { by exists a. }
  { split; [done|]. split; [done|]. exists (nextFrame w).
    by rewrite Hp1, Hp, Hf1. }
  split.
  - rewrite Hinv, Hi1. cbn [map]. by rewrite <- app_assoc.
  - by destruct Htick as (_ & _ & Hh).
Qed.

(** ** Without an analyser the loop is inert *)

Lemma displayFrame_quiet s h w :
  analyserRef h = None →
  displayFrame s h w = (h, with_frames [] (nextFrame w) w).
Proof.
  intros Hn. unfold displayFrame.
  generalize (with_frames [] (nextFrame w) w).
  induction (pendingFrames w) as [|p ps IH]; intros w0; [done|].
  cbn. unfold updateData at 2. rewrite Hn. apply IH.
Qed.

Lemma quiet_step op st :
  analyserRef st.1 = None →
  let st' := loop_step op st in
  analyserRef st'.1 = None
  ∧ invoked st'.2 = invoked st.2
  ∧ nextFrame st'.2 = nextFrame st.2
  ∧ length (pendingFrames st'.2) ≤ length (pendingFrames st.2).
Proof.
  destruct st as [h w]. cbn [fst snd]. intros Hn.
  destruct op as [s cb| |s]; cbn.
  - unfold startVisualization. by rewrite Hn.
  - unfold stopVisualization. destruct (animationFrameRef h); [|done].
    cbn. repeat split; [done|]. apply length_filter.
  - rewrite (displayFrame_quiet _ _ _ Hn). cbn. repeat split; [done|lia].
Qed.

Lemma quiet_run ops st :
  analyserRef st.1 = None →
  let st' := loop_run ops st in
  analyserRef st'.1 = None
  ∧ invoked st'.2 = invoked st.2
  ∧ nextFrame st'.2 = nextFrame st.2
  ∧ length (pendingFrames st'.2) ≤ length (pendingFrames st.2).
Proof.
  revert st. induction ops as [|op ops IH]; intros st Hn; [done|].
  cbn zeta. rewrite loop_run_cons.
  destruct (quiet_step op st Hn) as (Hn1 & Hi1 & Hf1 & Hp1).
  destruct (IH _ Hn1) as (Hn2 & Hi & Hf & Hp).
  repeat split; [done|congruence|congruence|lia].
Qed.

(** X2.  While [analyserRef] is null no sequence of starts, stops and
    display frames invokes a callback or requests a frame; requests
    left over from before can only go away. *)
Theorem loop_needs_an_analyser ops h w :
  analyserRef h = None →
  let st := loop_run ops (h, w) in
  analyserRef st.1 = None
  ∧ invoked st.2 = invoked w
  ∧ nextFrame st.2 = nextFrame w
  ∧ length (pendingFrames st.2) ≤ length (pendingFrames w).
Proof. intros Hn. by apply (quiet_run ops (h, w)). Qed.

Section More.

Context {manager : AudioContextManager}.
Variable hookupError : NodeId → NodeId → option Error.
Variable audioElement : option AudioElement.
Variable options : AudioVisualizerOptions.

(** What the cleanup leaves of the hook when it runs to its end. *)
Lemma cleanup_hook h w h1 w1 :
  cleanup audioElement h w = Ok tt h1 w1 →
  h1 = setFrequencyData (frequencyData h) mount.
Proof.
  unfold cleanup, bind, modify_hook, call, ret, stopVisualization.
  destruct (animationFrameRef h) eqn:Hf; destruct audioElement as [el|];
    try destruct (releaseAudioConnection el _) as [[] w2|e w2];
    try done; intros [= <- _]; destruct h; cbn in *; subst; reflexivity.
Qed.

(** X3.  After a cleanup that ran to its end no callback is ever
    invoked again, whatever ticks are still pending and whatever the
    loop is asked to do: every tick finds [analyserRef] null. *)
Theorem cleanup_silences_every_loop h w h1 w1 ops :
  cleanup audioElement h w = Ok tt h1 w1 →
  invoked (loop_run ops (h1, w1)).2 = invoked w1.
Proof.
  intros Hc. apply (quiet_run ops (h1, w1)).
  by rewrite (cleanup_hook _ _ _ _ Hc).
Qed.

(** X4.  A cleanup that ran to its end leaves the hook as it was
    mounted, except for [frequencyData], which keeps the buffer of the
    last [initialize]. *)
Theorem cleanup_resets_all_but_the_buffer h w h1 w1 :
  cleanup audioElement h w = Ok tt h1 w1 →
  audioContextRef h1 = None ∧ analyserRef h1 = None ∧ sourceRef h1 = None
  ∧ animationFrameRef h1 = None ∧ isInitialized h1 = false
  ∧ frequencyData h1 = frequencyData h.
Proof. intros Hc. by rewrite (cleanup_hook _ _ _ _ Hc). Qed.

End More.

(** ** Loops that overlap *)

Lemma updateData_many s h w0 a (ps : list (FrameHandle * CallbackId)) :
  analyserRef h = Some a →
  let st := foldl (λ st p, updateData s p.2 st.1 st.2) (h, w0) ps in
  analyserRef st.1 = Some a
  ∧ analysers st.2 = analysers w0
  ∧ invoked st.2
    = invoked w0 ++ map (λ p, (p.2, getFrequencyData s h w0)) ps
  ∧ pendingFrames st.2
    = pendingFrames w0 ++ zip (seq (nextFrame w0) (length ps)) ps.*2
  ∧ nextFrame st.2 = nextFrame w0 + length ps.
Proof.
  intros Ha. revert h w0 Ha.
  induction ps as [|p ps IH]; intros h w0 Ha; cbn zeta.
  { cbn. rewrite !app_nil_r. repeat split; [done|lia]. }
  cbn [foldl fst snd].
  destruct (updateData_tick s p.2 h w0 a Ha) as (Hr1 & Han1 & Hp1 & Hf1 & Hi1).
  set (st1 := updateData s p.2 h w0) in *.
  assert (Ha1 : analyserRef st1.1 = Some a) by congruence.
  assert (Hn1 : nextFrame st1.2 = S (nextFrame w0)).
  { unfold st1, updateData, requestAnimationFrame. by rewrite Ha. }
  destruct (IH st1.1 st1.2 Ha1) as (Hr & Han & Hi & Hp & Hn).
  replace (st1.1, st1.2) with st1 in * by (by destruct st1).
  split; [done|]. split; [congruence|]. split; [|split].
  - rewrite Hi, Hi1. cbn [map]. rewrite <- app_assoc. cbn. do 2 f_equal.
    apply map_ext. intros q. f_equal.
    apply getFrequencyData_ext; [congruence|done].
  - rewrite Hp, Hp1, Hn1. cbn. by rewrite <- app_assoc.
  - rewrite Hn, Hn1. cbn. lia.
Qed.

(** X13.  With an analyser in place a display frame invokes the
    callback of every pending tick once, in the order the ticks were
    requested, all with the same bytes, and leaves one new tick pending
    for each: a frame never ends a loop. *)
Theorem frame_ticks_every_pending_loop s h w :
  is_Some (analyserRef h) →
  let st := displayFrame s h w in
  invoked st.2
  = invoked w ++ map (λ p, (p.2, getFrequencyData s h w)) (pendingFrames w)
  ∧ (pendingFrames st.2).*2 = (pendingFrames w).*2.
Proof.
  intros [a Ha]. cbn zeta. unfold displayFrame.
  destruct (updateData_many s h (with_frames [] (nextFrame w) w) a
              (pendingFrames w) Ha) as (_ & _ & Hi & Hp & _).
  split.
  - rewrite Hi. cbn. do 2 f_equal.
  - rewrite Hp. cbn. rewrite snd_zip; [done|].
    rewrite length_seq, length_fmap. done.
Qed.

Lemma frames_ok_step op st :
  frames_ok st.2 → frames_ok (loop_step op st).2.
Proof.
  destruct st as [h w]. cbn [fst snd]. intros [Hnd Hlt].
  destruct op as [s cb| |s]; cbn.
  - unfold startVisualization.
    destruct (analyserRef h) as [a|] eqn:Ha; [|done].
    destruct (updateData_tick s cb h w a Ha) as (_ & _ & Hp & _ & _).
    assert (Hn : nextFrame (updateData s cb h w).2 = S (nextFrame w)).
    { unfold updateData, requestAnimationFrame. by rewrite Ha. }
    split; rewrite Hp, ?Hn.
    + rewrite fmap_app. cbn. apply NoDup_app. split; [done|].
      split; [|apply NoDup_singleton].
      intros x Hx [= ->]%list_elem_of_singleton.
      apply list_elem_of_fmap in Hx as (p & Hpx & Hp').
      rewrite Forall_forall in Hlt. specialize (Hlt p Hp'). lia.
    + apply Forall_app. split.
      * eapply Forall_impl; [done|]. cbn. lia.
      * apply Forall_singleton. cbn. lia.
  - unfold stopVisualization. destruct (animationFrameRef h); [|done].
    cbn. split.
    + eapply sublist_NoDup; [done|]. apply fmap_sublist, sublist_filter.
    + rewrite Forall_forall in Hlt. apply Forall_forall.
      intros p [_ Hp]%list_elem_of_filter. by apply Hlt.
  - destruct (analyserRef h) as [a|] eqn:Ha.
    + unfold displayFrame.
      destruct (updateData_many s h (with_frames [] (nextFrame w) w) a
                  (pendingFrames w) Ha) as (_ & _ & _ & Hp & Hn).
      cbn in Hp, Hn. split; rewrite Hp, ?Hn.
      * rewrite fst_zip by (by rewrite length_seq, length_fmap).
        apply NoDup_seq.
      * apply Forall_forall. intros [x y] Hin%elem_of_zip_l.
        apply elem_of_seq in Hin. cbn. lia.
    + rewrite (displayFrame_quiet _ _ _ Ha). split; cbn; constructor.
Qed.

Lemma frames_ok_run ops st :
  frames_ok st.2 → frames_ok (loop_run ops st).2.
Proof.
  revert st. induction ops as [|op ops IH]; intros st Hok; [done|].
  rewrite loop_run_cons. by apply IH, frames_ok_step.
Qed.

Lemma filter_handle_length (l : list (FrameHandle * CallbackId)) handle :
  NoDup l.*1 →
  length l ≤ S (length (filter (λ p, p.1 ≠ handle) l)).
Proof.
  induction l as [|p l IH]; intros Hnd; [cbn; lia|].
  cbn in Hnd. apply NoDup_cons in Hnd as [Hnotin Hnd].
  rewrite filter_cons.
  destruct (decide (p.1 = handle)) as [Heq|Hne].
  - rewrite decide_False by (intros Hne; by apply Hne).
    assert (Hall : filter (λ q : nat * nat, q.1 ≠ handle) l = l).
    { clear IH Hnd. induction l as [|q l IHl]; [done|].
      rewrite filter_cons. rewrite decide_True.
      - f_equal. apply IHl. intros Hin. apply Hnotin. by right.
      - intros Hq. apply Hnotin. rewrite Heq, <- Hq. by left. }
    rewrite Hall. cbn. lia.
  - rewrite decide_True by done. cbn. specialize (IH Hnd). lia.
Qed.

(** X14.  Whatever was started, stopped and displayed since the
    scheduler was empty, [stopVisualization] removes at most one
    pending tick and changes no other. *)
Theorem stop_cancels_at_most_one_tick ops h w :
  pendingFrames w = [] →
  let st := loop_run ops (h, w) in
  let st' := loop_step Stop st in
  length (pendingFrames st.2) ≤ S (length (pendingFrames st'.2))
  ∧ pendingFrames st'.2 `sublist_of` pendingFrames st.2.
Proof.
  intros Hp. cbn zeta.
  assert (Hok : frames_ok (loop_run ops (h, w)).2).
  { apply frames_ok_run. unfold frames_ok. cbn [snd]. rewrite Hp.
    split; constructor. }
  destruct (loop_run ops (h, w)) as [h1 w1]. cbn [fst snd] in *.
  unfold loop_step, stopVisualization. cbn [fst snd].
  destruct (animationFrameRef h1) as [handle|]; cbn.
  - split; [apply filter_handle_length, Hok|apply sublist_filter].
  - split; [lia|done].
Qed.

(** ** Invariants of the hook's own state *)

Section State.

Context {manager : AudioContextManager}.
Variable hookupError : NodeId → NodeId → option Error.
Variable audioElement : option AudioElement.
Variable options : AudioVisualizerOptions.

Lemma Uint8Array_zero n : Forall (λ b, b = x00) (Uint8Array n).
Proof. apply Forall_replicate. done. Qed.

Lemma initialize_hook_ok h w :
  hook_ok h → hook_ok (initialize hookupError audioElement options h w).1.
Proof.
  intros Hok.
  destruct (initialize_cases audioElement h) as [Hn|(el & -> & Hi & Hc)].
  { by rewrite (initialize_unguarded _ _ _ _ _ Hn). }
  rewrite (initialize_guarded _ _ _ _ _ Hi Hc), initialize_body_run.
  destruct (getOrCreateAudioConnection el w) as [[c|] w0|e0 w0]; [|done..].
  cbn zeta. destruct (valid_fftSize _); [|done].
  destruct (valid_smoothingTimeConstant _); [|done].
  destruct Hok as [Hz Hrefs].
  destruct (ensureConnectionChain _ _) as [[] w3|e3 w3]; cbn [fst].
  - split; cbn; [apply Uint8Array_zero|]. intros _. by repeat split.
  - split; cbn; [done|]. by rewrite Hi.
Qed.

Lemma loop_step_hook op st :
  let st' := loop_step op st in
  frequencyData st'.1 = frequencyData st.1
  ∧ isInitialized st'.1 = isInitialized st.1
  ∧ audioContextRef st'.1 = audioContextRef st.1
  ∧ analyserRef st'.1 = analyserRef st.1
  ∧ sourceRef st'.1 = sourceRef st.1.
Proof.
  destruct st as [h w]. destruct op as [s cb| |s]; cbn.
  - unfold startVisualization, updateData, requestAnimationFrame.
    by destruct (analyserRef h) eqn:E.
  - unfold stopVisualization. by destruct (animationFrameRef h) eqn:E.
  - unfold displayFrame.
    generalize (with_frames [] (nextFrame w) w). intros w0.
    change h with (h, w0).1 at 2 4 6 8 10.
    generalize (h, w0). clear w0.
    induction (pendingFrames w) as [|p ps IH]; intros st; [done|].
    cbn. destruct (IH (updateData s p.2 st.1 st.2)) as (-> & -> & -> & -> & ->).
    unfold updateData, requestAnimationFrame.
    by destruct (analyserRef st.1) eqn:E.
Qed.

Lemma cleanup_hook_ok st :
  hook_ok st.1 → hook_ok (settle (cleanup audioElement st.1 st.2)).1.
Proof.
  destruct st as [h w]. cbn [fst snd]. intros [Hz Hrefs].
  unfold cleanup, bind, modify_hook, call, ret, stopVisualization.
  destruct (animationFrameRef h); destruct audioElement as [el|];
    try destruct (releaseAudioConnection el _) as [[] w2|e w2];
    split; cbn; done.
Qed.

Lemma hook_step_ok op st :
  hook_ok st.1 →
  hook_ok (hook_step hookupError audioElement options op st).1.
Proof.
  intros Hok. destruct op as [| |op]; cbn [hook_step].
  - by apply initialize_hook_ok.
  - by apply cleanup_hook_ok.
  - destruct (loop_step_hook op st) as (Hf & Hi & Hc & Ha & Hs).
    unfold hook_ok. by rewrite Hf, Hi, Hc, Ha, Hs.
Qed.

Lemma hook_run_ok ops st :
  hook_ok st.1 →
  hook_ok (hook_run hookupError audioElement options ops st).1.
Proof.
  revert st. induction ops as [|op ops IH]; intros st Hok; [done|].
  cbn. apply IH. by apply hook_step_ok.
Qed.

Lemma mount_ok : hook_ok mount.
Proof. by split. Qed.

(** X5.  In every state reachable from the mount the [frequencyData]
    the hook returns holds zero bytes only: it is written by
    [initialize] alone, with a fresh array, and no tick of the loop
    stores samples in it. *)
Theorem frequencyData_is_never_filled ops w :
  Forall (λ b, b = x00)
    (frequencyData
       (hook_run hookupError audioElement options ops (mount, w)).1).
Proof. by apply (hook_run_ok ops (mount, w)), mount_ok. Qed.



(** X8.  A call of [initialize] that gets past its guard ends in one
    of three ways: the hook is untouched; or the hook is initialized;
    or [ensureConnectionChain] threw after the refs were written, which
    leaves [isInitialized] false with an analyser in place.  In the
    last two cases every later call of [initialize] is a no-op, so a
    failure of [ensureConnectionChain] is never retried. *)
Theorem initialize_outcomes el h w h1 w1 :
  isInitialized h = false → audioContextRef h = None →
  initialize hookupError (Some el) options h w = (h1, w1) →
  h1 = h
  ∨ (is_Some (analyserRef h1)
     ∧ (∀ w2, initialize hookupError (Some el) options h1 w2 = (h1, w2))
     ∧ (isInitialized h1 = true
        ∨ (isInitialized h1 = false
           ∧ ∃ c w2 e w3,
               ensureConnectionChain c w2 = Throws e w3
               ∧ w1 = with_console
                        (λ l, l ++ [("Failed to initialize audio visualizer:",
                                     e)]) w3))).
Proof.
  intros Hi Hc Hrun.
  rewrite (initialize_guarded _ _ _ _ _ Hi Hc), initialize_body_run in Hrun.
  destruct (getOrCreateAudioConnection el w) as [[c|] w0|e0 w0];
    [|injection Hrun as <- _; by left..].
  cbn zeta in Hrun.
  destruct (valid_fftSize _); [|injection Hrun as <- _; by left].
  destruct (valid_smoothingTimeConstant _); [|injection Hrun as <- _; by left].
  right.
  destruct (ensureConnectionChain _ _) as [[] w3|e3 w3] eqn:Hens;
    injection Hrun as <- <-.
  - split; [by eexists|]. split; [|by left].
    intros w2. by apply initialize_unguarded; right; left.
  - split; [by eexists|]. split.
    + intros w2. apply initialize_unguarded. right; right. by eexists.
    + right. split; [done|]. by eexists _, _, _, _.
Qed.

End State.

(** ** What [initialize] leaves alone *)

Section Frame.

Context {manager : AudioContextManager} `{!ManagerLaws manager}.
Variable hookupError : NodeId → NodeId → option Error.

(** The manager's [getOrCreateAudioConnection] creates no analyser and
    rewrites none. *)
Hypothesis acquire_analysers :
  ∀ el w, analysers (world_of (getOrCreateAudioConnection el w)) = analysers w.

Lemma shared_world_analysers c w a :
  a < nextNode w → analysers (shared_world c w) !! a = analysers w !! a.
Proof.
  intros Hlt. unfold shared_world. destruct (analyser _); [done|].
  cbn. rewrite lookup_insert_ne; [done|lia].
Qed.

Lemma initialize_frame audioElement options h w h1 w1 :
  initialize hookupError audioElement options h w = (h1, w1) →
  (∀ a, a < nextNode w → analysers w1 !! a = analysers w !! a)
  ∧ (analyserRef h1 = analyserRef h
     ∨ ∃ a, analyserRef h1 = Some a ∧ nextNode w ≤ a).
Proof.
  destruct (initialize_cases audioElement h) as [Hn|(el & -> & Hi & Hc)].
  { rewrite (initialize_unguarded _ _ _ _ _ Hn). intros [= <- <-].
    split; [done|by left]. }
  rewrite (initialize_guarded _ _ _ _ _ Hi Hc), initialize_body_run.
  pose proof (acquire_step el w) as [_ Hmono _].
  pose proof (acquire_analysers el w) as Hacq.
  destruct (getOrCreateAudioConnection el w) as [[c|] w0|e0 w0];
    cbn in Hmono, Hacq;
    [|intros [= <- <-]; split; [by rewrite <- Hacq|by left]..].
  pose proof (nextNode_shared_world c w0) as Hmono1.
  set (w1' := shared_world c w0) in *.
  assert (Hkeep1 : ∀ a, a < nextNode w →
                        analysers w1' !! a = analysers w !! a).
  { intros a Ha. unfold w1'. rewrite shared_world_analysers by lia.
    by rewrite Hacq. }
  cbn zeta.
  destruct (valid_fftSize _).
  2:{ intros [= <- <-]. split; [|by left]. intros a Ha. cbn.
      rewrite lookup_insert_ne by lia. by apply Hkeep1. }
  destruct (valid_smoothingTimeConstant _).
  2:{ intros [= <- <-]. split; [|by left]. intros a Ha. cbn.
      rewrite lookup_insert_ne by lia. by apply Hkeep1. }
  set (w2 := hooked_up _ _ _ _).
  assert (Hkeep2 : ∀ a, a < nextNode w →
                        analysers w2 !! a = analysers w !! a).
  { intros a Ha. unfold w2, hooked_up. destruct (hookupError _ _); cbn;
      (rewrite lookup_insert_ne by lia); by apply Hkeep1. }
  pose proof (ensure_analysers c w2) as Hens.
  destruct (ensureConnectionChain c w2) as [[] w3|e3 w3]; cbn in Hens;
    intros [= <- <-]; cbn; rewrite Hens;
    (split; [done|right; exists (nextNode w1'); split; [done|lia]]).
Qed.

(** X9.  Two hooks initialized one after the other on a well-formed
    world get two different analyser nodes, and after the second
    [initialize] each node still carries the options of its own hook.
    The manager is assumed to keep its laws and to create or rewrite no
    analyser in [getOrCreateAudioConnection]. *)
Theorem two_hooks_two_taps ae1 ae2 o1 o2 hA hB w hA' w1 hB' w2 a b :
  wf w → analyserRef hA = None → analyserRef hB = None →
  initialize hookupError ae1 o1 hA w = (hA', w1) →
  initialize hookupError ae2 o2 hB w1 = (hB', w2) →
  analyserRef hA' = Some a → analyserRef hB' = Some b →
  a ≠ b
  ∧ analysers w2 !! a = Some (configured o1)
  ∧ analysers w2 !! b = Some (configured o2).
Proof.
  intros Hwf HA HB Hrun1 Hrun2 Ha Hb.
  assert (Hinv : hook_inv (hA', w1)).
  { rewrite <- Hrun1. apply (initialize_inv _ _ _ (hA, w)).
    split; [done|]. intros x Hx. cbn in Hx. congruence. }
  destruct Hinv as [_ Hpriv]. destruct (Hpriv a Ha) as [Hlt _].
  cbn [fst snd] in Hlt.
  destruct (initialize_tap _ _ _ _ _ _ _ Hrun1) as [[Heq _]|(a' & Ha' & Hnode1)];
    [congruence|].
  destruct (initialize_tap _ _ _ _ _ _ _ Hrun2) as [[Heq _]|(b' & Hb' & Hnode2)];
    [congruence|].
  destruct (initialize_frame _ _ _ _ _ _ Hrun2) as [Hkeep [Heq|(b'' & Hb'' & Hge)]];
    [congruence|].
  replace a' with a in * by congruence.
  replace b' with b in * by congruence.
  replace b'' with b in * by congruence.
  split; [lia|]. split; [|done]. by rewrite Hkeep.
Qed.

End Frame.

Section Accessors.

Context {manager : AudioContextManager}.
Variable hookupError : NodeId → NodeId → option Error.
Variable options : AudioVisualizerOptions.

Lemma imap_Uint8Array (g : nat → byte) (bound n : Z) :
  (n ≤ bound)%Z →
  imap (λ k old, if bool_decide (Z.of_nat k < bound)%Z then g k else old)
       (Uint8Array n)
  = g <$> seq 0 (Z.to_nat n).
Proof.
  intros Hn. transitivity (imap (λ k _, g k) (Uint8Array n)).
  - apply imap_ext. intros k b Hk. apply lookup_lt_Some in Hk.
    rewrite length_Uint8Array in Hk.
    rewrite bool_decide_eq_true_2; [done|lia].
  - by rewrite imap_seq_0, length_Uint8Array.
Qed.

(** X10.  With an analyser in place, the arrays [getFrequencyData] and
    [getTimeDomainData] return hold the analyser's bytes at every
    index from 0 to [frequencyBinCount - 1]: no slot keeps the zero the
    array was created with. *)
Theorem sample_arrays_are_fully_written s h w a :
  analyserRef h = Some a →
  let bins := Z.to_nat (frequencyBinCount (analysers w !!! a)) in
  getFrequencyData s h w = byteFrequency s a <$> seq 0 bins
  ∧ getTimeDomainData s h w = byteTimeDomain s a <$> seq 0 bins.
Proof.
  intros Ha. unfold getFrequencyData, getTimeDomainData,
    getByteFrequencyData, getByteTimeDomainData. rewrite Ha. cbn zeta.
  split; by apply imap_Uint8Array.
Qed.


Lemma dispatch_unregistered audioElement g st :
  st.2 = no_listeners →
  dispatch hookupError audioElement options g st = st.
Proof. intros Hl. unfold dispatch. rewrite Hl. by destruct g. Qed.

Lemma dispatch_all_unregistered audioElement gs st :
  st.2 = no_listeners →
  dispatch_all hookupError audioElement options gs st = st.
Proof.
  induction gs as [|g gs IH]; intros Hl; [done|].
  cbn. rewrite dispatch_unregistered by done. by apply IH.
Qed.

(** X11.  Once the effect has registered the handler (an audio element
    is present and the hook is not initialized), the first click or
    touch runs [initialize] once and unregisters the handler from both
    events: whatever gestures follow, the outcome is that of the single
    call. *)
Theorem first_gesture_initializes_once audioElement g gs h w l :
  is_Some audioElement → isInitialized h = false →
  dispatch_all hookupError audioElement options (g :: gs)
    (h, w, gestureEffect audioElement h l)
  = (initialize hookupError audioElement options h w, no_listeners).
Proof.
  intros [el ->] Hi. unfold gestureEffect. rewrite Hi. cbn [negb].
  cbn [dispatch_all foldl].
  assert (Hfirst : dispatch hookupError (Some el) options g
                     (h, w, {| onClick := true; onTouchstart := true |})
                   = (initialize hookupError (Some el) options h w,
                      no_listeners)) by (by destruct g).
  rewrite Hfirst. by apply dispatch_all_unregistered.
Qed.

End Accessors.

(** ** A rejected option *)

Section Rejected.

Context {manager : AudioContextManager}.
Variable hookupError : NodeId → NodeId → option Error.
Variable options : AudioVisualizerOptions.

Lemma shared_world_has_analyser c w :
  is_Some (analyser (connections (shared_world c w) !!! c)).
Proof.
  unfold shared_world.
  destruct (analyser (connections w !!! c)) as [a|] eqn:Ha.
  - rewrite Ha. by eexists.
  - cbn. rewrite lookup_total_insert_eq. by eexists.
Qed.

(** X15.  When the platform rejects the [fftSize] option,
    [initialize] leaves the hook untouched and logs the failure, but
    its earlier steps stay: the connection has a shared analyser, and
    the custom analyser node has been allocated, still with the
    platform's defaults. *)
Theorem rejected_fftSize_leaves_its_mark el h w c w0 :
  isInitialized h = false → audioContextRef h = None →
  getOrCreateAudioConnection el w = Returns (Some c) w0 →
  valid_fftSize (fftSize_of options) = false →
  let r := initialize hookupError (Some el) options h w in
  r.1 = h
  ∧ last (console r.2)
    = Some ("Failed to initialize audio visualizer:", IndexSizeError)
  ∧ is_Some (analyser (connections r.2 !!! c))
  ∧ nextNode w0 < nextNode r.2
  ∧ analysers r.2 !! (nextNode r.2 - 1) = Some freshAnalyser.
Proof.
  intros Hi Hc Hacq Hbad. cbn zeta.
  rewrite (initialize_guarded _ _ _ _ _ Hi Hc), initialize_body_run, Hacq.
  cbn zeta. rewrite Hbad. cbn [fst snd].
  split; [done|]. split; [cbn; apply last_snoc|].
  split; [apply shared_world_has_analyser|].
  pose proof (nextNode_shared_world c w0). cbn. split; [lia|].
  rewrite Nat.sub_0_r. apply lookup_insert_eq.
Qed.

End Rejected.

(** ** The further properties at concrete inputs *)

Lemma SpecManager_acquire_analysers el w :
  analysers (world_of (SpecManager.acquire el w)) = analysers w.
Proof.
  unfold SpecManager.acquire. case_bool_decide; [done|].
  by destruct (connections w !! el).
Qed.

Lemma loop_invokes_once_per_tick_witness :
  pendingFrames Sample.playing.2 = []
  ∧ is_Some (analyserRef Sample.playing.1)
  ∧ let st := loop_run
                (Start Sample.silence 1 :: map Frame [Sample.hum; Sample.silence])
                (Sample.playing.1, Sample.playing.2) in
    invoked st.2
    = invoked Sample.playing.2
      ++ map (λ s, (1, getFrequencyData s Sample.playing.1 Sample.playing.2))
             [Sample.silence; Sample.hum; Sample.silence]
    ∧ ∃ handle, pendingFrames st.2 = [(handle, 1)]
                ∧ animationFrameRef st.1 = Some handle.
Proof.
  split; [vm_compute; reflexivity|].
  split; [exists 3; vm_compute; reflexivity|].
  apply loop_invokes_once_per_tick;
    [vm_compute; reflexivity|exists 3; vm_compute; reflexivity].
Defined.

Lemma loop_needs_an_analyser_witness :
  analyserRef mount = None
  ∧ let st := loop_run [Start Sample.silence 1; Frame Sample.hum; Stop]
                (mount, Sample.page) in
    analyserRef st.1 = None
    ∧ invoked st.2 = invoked Sample.page
    ∧ nextFrame st.2 = nextFrame Sample.page
    ∧ length (pendingFrames st.2) ≤ length (pendingFrames Sample.page).
Proof.
  split; [reflexivity|]. apply loop_needs_an_analyser. reflexivity.
Defined.

Lemma cleanup_silences_every_loop_witness :
  length (pendingFrames Scenario.two_loops.2) = 2
  ∧ ∃ h1 w1,
      cleanup (manager := SpecManager.manager) (Some 7)
        Scenario.two_loops.1 Scenario.two_loops.2 = Ok tt h1 w1
      ∧ invoked (loop_run [Frame Sample.hum; Start Sample.hum 3;
                           Frame Sample.silence] (h1, w1)).2
        = invoked w1.
Proof.
  split; [vm_compute; reflexivity|].
  destruct (cleanup (manager := SpecManager.manager) (Some 7)
              Scenario.two_loops.1 Scenario.two_loops.2)
    as [[] h1 w1|e h1 w1] eqn:Hrun.
  - exists h1, w1. split; [reflexivity|].
    exact (cleanup_silences_every_loop (manager := SpecManager.manager)
             (Some 7) _ _ _ _ _ Hrun).
  - vm_compute in Hrun. discriminate Hrun.
Defined.

Lemma cleanup_resets_all_but_the_buffer_witness :
  length (frequencyData Sample.playing.1) = 1024
  ∧ ∃ h1 w1,
      cleanup (manager := SpecManager.manager) (Some 7)
        Sample.playing.1 Sample.playing.2 = Ok tt h1 w1
      ∧ audioContextRef h1 = None ∧ analyserRef h1 = None
      ∧ sourceRef h1 = None ∧ animationFrameRef h1 = None
      ∧ isInitialized h1 = false
      ∧ frequencyData h1 = frequencyData Sample.playing.1.
Proof.
  split; [vm_compute; reflexivity|].
  destruct (cleanup (manager := SpecManager.manager) (Some 7)
              Sample.playing.1 Sample.playing.2)
    as [[] h1 w1|e h1 w1] eqn:Hrun.
  - exists h1, w1. split; [reflexivity|].
    exact (cleanup_resets_all_but_the_buffer
             (manager := SpecManager.manager) (Some 7) _ _ _ _ Hrun).
  - vm_compute in Hrun. discriminate Hrun.
Defined.



Lemma initialize_outcomes_witness :
  let r := initialize (manager := Faulty.manager) Sample.hookup_fine (Some 7)
             Sample.no_options mount Sample.page in
  isInitialized mount = false
  ∧ audioContextRef mount = None
  ∧ isInitialized r.1 = false
  ∧ is_Some (analyserRef r.1)
  ∧ ∀ w2, initialize (manager := Faulty.manager) Sample.hookup_fine (Some 7)
            Sample.no_options r.1 w2 = (r.1, w2).
Proof.
  cbn zeta. split; [reflexivity|]. split; [reflexivity|].
  split; [vm_compute; reflexivity|].
  destruct (initialize_outcomes (manager := Faulty.manager)
              Sample.hookup_fine Sample.no_options 7 mount Sample.page _ _
              eq_refl eq_refl (surjective_run _))
    as [Hsame|(Htap & Hstuck & _)].
  - exfalso. apply (f_equal analyserRef) in Hsame.
    vm_compute in Hsame. discriminate Hsame.
  - split; [exact Htap|exact Hstuck].
Defined.

Lemma two_hooks_two_taps_witness :
  let first := initialize (manager := SpecManager.manager) Sample.hookup_fine
                 (Some 7) Sample.no_options mount Sample.page in
  let second := initialize (manager := SpecManager.manager)
                  Sample.hookup_fine (Some 7) Scenario.wide_options mount
                  first.2 in
  wf Sample.page
  ∧ analyserRef mount = None
  ∧ analyserRef first.1 = Some 3
  ∧ analyserRef second.1 = Some 4
  ∧ 3 ≠ 4
  ∧ analysers second.2 !! 3 = Some (configured Sample.no_options)
  ∧ analysers second.2 !! 4 = Some (configured Scenario.wide_options).
Proof.
  cbn zeta. split; [apply wf_page|]. split; [reflexivity|].
  split; [vm_compute; reflexivity|]. split; [vm_compute; reflexivity|].
  apply (two_hooks_two_taps (manager := SpecManager.manager)
           (ManagerLaws0 := SpecManager_laws) Sample.hookup_fine
           SpecManager_acquire_analysers
           (Some 7) (Some 7) Sample.no_options Scenario.wide_options
           mount mount Sample.page _ _ _ _ 3 4 wf_page eq_refl eq_refl
           (surjective_run _) (surjective_run _));
    vm_compute; reflexivity.
Defined.

Lemma sample_arrays_are_fully_written_witness :
  analyserRef Sample.playing.1 = Some 3
  ∧ getFrequencyData Sample.hum Sample.playing.1 Sample.playing.2
    = byteFrequency Sample.hum 3 <$> seq 0 64
  ∧ getTimeDomainData Sample.hum Sample.playing.1 Sample.playing.2
    = byteTimeDomain Sample.hum 3 <$> seq 0 64.
Proof.
  split; [vm_compute; reflexivity|].
  apply (sample_arrays_are_fully_written Sample.hum Sample.playing.1
           Sample.playing.2 3).
  vm_compute. reflexivity.
Defined.

Lemma first_gesture_initializes_once_witness :
  is_Some (Some 7)
  ∧ isInitialized mount = false
  ∧ dispatch_all (manager := SpecManager.manager) Sample.hookup_fine (Some 7)
      Sample.no_options [Touchstart; Click; Touchstart]
      (mount, Sample.page, gestureEffect (Some 7) mount no_listeners)
    = (initialize (manager := SpecManager.manager) Sample.hookup_fine
         (Some 7) Sample.no_options mount Sample.page, no_listeners).
Proof.
  split; [by exists 7|]. split; [reflexivity|].
  apply (first_gesture_initializes_once (manager := SpecManager.manager));
    [by exists 7|reflexivity].
Defined.


Lemma frame_ticks_every_pending_loop_witness :
  is_Some (analyserRef Scenario.two_loops.1)
  ∧ (pendingFrames Scenario.two_loops.2).*2 = [1; 2]
  ∧ let st := displayFrame Sample.hum Scenario.two_loops.1
                Scenario.two_loops.2 in
    invoked st.2
    = invoked Scenario.two_loops.2
      ++ map (λ p, (p.2, getFrequencyData Sample.hum Scenario.two_loops.1
                           Scenario.two_loops.2))
             (pendingFrames Scenario.two_loops.2)
    ∧ (pendingFrames st.2).*2 = (pendingFrames Scenario.two_loops.2).*2.
Proof.
  split; [exists 3; vm_compute; reflexivity|].
  split; [vm_compute; reflexivity|].
  apply frame_ticks_every_pending_loop. exists 3. vm_compute. reflexivity.
Defined.

Lemma stop_cancels_at_most_one_tick_witness :
  pendingFrames Sample.playing.2 = []
  ∧ let st := loop_run [Start Sample.silence 1; Start Sample.hum 2;
                        Frame Sample.hum]
                (Sample.playing.1, Sample.playing.2) in
    let st' := loop_step Stop st in
    length (pendingFrames st.2) ≤ S (length (pendingFrames st'.2))
    ∧ pendingFrames st'.2 `sublist_of` pendingFrames st.2.
Proof.
  split; [vm_compute; reflexivity|].
  apply stop_cancels_at_most_one_tick. vm_compute. reflexivity.
Defined.

Lemma rejected_fftSize_leaves_its_mark_witness :
  ∃ w0,
    isInitialized mount = false
    ∧ audioContextRef mount = None
    ∧ SpecManager.acquire 7 Sample.page = Returns (Some 7) w0
    ∧ valid_fftSize (fftSize_of Sample.odd_options) = false
    ∧ let r := initialize (manager := SpecManager.manager) Sample.hookup_fine
                 (Some 7) Sample.odd_options mount Sample.page in
      r.1 = mount
      ∧ last (console r.2)
        = Some ("Failed to initialize audio visualizer:", IndexSizeError)
      ∧ is_Some (analyser (connections r.2 !!! 7))
      ∧ nextNode w0 < nextNode r.2
      ∧ analysers r.2 !! (nextNode r.2 - 1) = Some freshAnalyser.
Proof.
  destruct (SpecManager.acquire 7 Sample.page) as [[c|] w0|e w0] eqn:Hacq;
    [|vm_compute in Hacq; discriminate Hacq..].
  assert (c = 7) as -> by (vm_compute in Hacq; congruence).
  exists w0. split; [reflexivity|]. split; [reflexivity|].
  split; [reflexivity|]. split; [reflexivity|].
  apply (rejected_fftSize_leaves_its_mark (manager := SpecManager.manager)
           Sample.hookup_fine Sample.odd_options 7 mount Sample.page 7 w0);
    [reflexivity|reflexivity|exact Hacq|reflexivity].
Defined.
